(** * MSF_FLOW: the plume enrichment pipeline of [msf_flow_luigi.py]

    A shallow embedding of the core operations of [msf_flow_luigi.py]
    ([get_minppmm_from_fname], [dict_reader_plus_update], [process_plume],
    [process_plumes], [insert_plumes_in_file], [main]) together with the
    parts of Python's [csv.DictReader], [csv.DictWriter], [sorted] and
    [re.search] that they rely on.

    Conventions.
    - A Python [str] is a [string] (a sequence of bytes, the UTF-8 encoding
      of the text).  Byte-wise lexicographic order on UTF-8 is code-point
      order, which is how Python compares strings.  The name of a file
      is decoded to code points before the regular expression reads it,
      and [\d] is the class of the Unicode decimal digits.
    - A Python [dict] is an association list in insertion order; the
      operations below keep keys unique.
    - Exceptions are explicit: pure code returns [result A], code with
      effects runs in the monad [M], which threads a [world] (files,
      directory listings, a trace of file-system calls, the log and the
      standard output) and keeps the world reached when an exception is
      raised. *)

From Stdlib Require Import ZArith Ascii String List Lia DecimalString.
From stdpp Require Import base option list gmap strings sorting.

Local Open Scope Z_scope.


(** ** Python values, keys and dictionaries *)

(** The values a record can hold: [None] (the [restval] of a short CSV
    row), a string (a CSV cell), an integer (the threshold parsed from a
    file name, numeric statistics) and a list of strings (the cells of a
    long CSV row, stored under the key [None]). *)
Inductive pyval : Type :=
| PNone
| PStr (s : string)
| PInt (z : Z)
| PList (l : list string).

(** Dictionary keys: a field name, or [None] ([DictReader]'s [restkey]). *)
Inductive pykey : Type :=
| KNone
| KStr (s : string).

#[global] Instance pyval_eq_dec : EqDecision pyval.
Proof. solve_decision. Defined.

#[global] Instance pykey_eq_dec : EqDecision pykey.
Proof. solve_decision. Defined.

(** A record is an insertion-ordered dictionary. *)
Definition record : Type := list (pykey * pyval).

Definition dict_keys (d : record) : list pykey := d.*1.

(** [d.get(k)] *)
Fixpoint dict_get (k : pykey) (d : record) : option pyval :=
  match d with
  | [] => None
  | (k', v) :: d' => if decide (k' = k) then Some v else dict_get k d'
  end.

(** [k in d] *)
Definition dict_contains (k : pykey) (d : record) : bool :=
  bool_decide (is_Some (dict_get k d)).

(** [d[k] = v]: an existing key keeps its position, a new key goes last. *)
Fixpoint dict_set (k : pykey) (v : pyval) (d : record) : record :=
  match d with
  | [] => [(k, v)]
  | (k', v') :: d' =>
      if decide (k' = k) then (k, v) :: d' else (k', v') :: dict_set k v d'
  end.

(** [d.update(m)] *)
Definition dict_update (d m : record) : record :=
  foldl (λ acc kv, dict_set kv.1 kv.2 acc) d m.

(** [dict(zip(ks, vs))] *)
Definition dict_zip (ks : list pykey) (vs : list pyval) : record :=
  dict_update [] (zip ks vs).

(** ** Exceptions *)

Inductive exn : Type :=
| ValueError
| KeyError
| TypeError
| IndexError
| OSError
| CsvError
| UnicodeDecodeError
| ExternalError (code : Z).

Inductive result (A : Type) : Type :=
| Ok (a : A)
| Raise (e : exn).
Arguments Ok {A} a.
Arguments Raise {A} e.

#[global] Instance result_ret : MRet result := λ A a, Ok a.
#[global] Instance result_bind : MBind result := λ A B f r,
  match r with
  | Ok a => f a
  | Raise e => Raise e
  end.

Definition is_Ok {A} (r : result A) : Prop := ∃ a, r = Ok a.

(** [d[k]], raising [KeyError] when the key is absent. *)
Definition dict_getitem (k : pykey) (d : record) : result pyval :=
  match dict_get k d with
  | Some v => Ok v
  | None => Raise KeyError
  end.

(** [l[0]] *)
Definition list_first {A} (l : list A) : result A :=
  match l with
  | [] => Raise IndexError
  | x :: _ => Ok x
  end.

(** [[f(x) for x in l]] for a function that can raise. *)
Fixpoint result_map {A B} (f : A → result B) (l : list A) : result (list B) :=
  match l with
  | [] => Ok []
  | x :: xs => y ← f x; ys ← result_map f xs; Ok (y :: ys)
  end.

(** ** [get_minppmm_from_fname] and the regular expression [minppmm(\d+)] *)

(** A Python [str] is a sequence of code points.  A file name is kept
    here as its bytes; Python sees it decoded as UTF-8 with the
    [surrogateescape] handler ([os.fsdecode], which is how [sys.argv] is
    decoded): a byte that is part of no well-formed sequence becomes the
    code point 56320 + byte. *)
Definition utf8_cont (b : N) : bool := (128 <=? b)%N && (b <=? 191)%N.

Definition utf8_lead2 (b0 : N) : bool := (194 <=? b0)%N && (b0 <=? 223)%N.

Definition utf8_lead3 (b0 b1 : N) : bool :=
  ((b0 =? 224)%N && (160 <=? b1)%N && (b1 <=? 191)%N)
  || ((225 <=? b0)%N && (b0 <=? 236)%N && utf8_cont b1)
  || ((b0 =? 237)%N && (128 <=? b1)%N && (b1 <=? 159)%N)
  || ((238 <=? b0)%N && (b0 <=? 239)%N && utf8_cont b1).

Definition utf8_lead4 (b0 b1 : N) : bool :=
  ((b0 =? 240)%N && (144 <=? b1)%N && (b1 <=? 191)%N)
  || ((241 <=? b0)%N && (b0 <=? 243)%N && utf8_cont b1)
  || ((b0 =? 244)%N && (128 <=? b1)%N && (b1 <=? 143)%N).

Definition surrogate_escape (b : N) : N := (56320 + b)%N.

Fixpoint utf8_decode (bs : list N) : list N :=
  match bs with
  | [] => []
  | b0 :: r0 =>
      if (b0 <? 128)%N then b0 :: utf8_decode r0
      else
        match r0 with
        | [] => [surrogate_escape b0]
        | b1 :: r1 =>
            if utf8_lead2 b0 && utf8_cont b1
            then ((b0 - 192) * 64 + (b1 - 128))%N :: utf8_decode r1
            else
              match r1 with
              | [] => surrogate_escape b0 :: utf8_decode r0
              | b2 :: r2 =>
                  if utf8_lead3 b0 b1 && utf8_cont b2
                  then ((b0 - 224) * 4096 + (b1 - 128) * 64 + (b2 - 128))%N
                       :: utf8_decode r2
                  else
                    match r2 with
                    | [] => surrogate_escape b0 :: utf8_decode r0
                    | b3 :: r3 =>
                        if utf8_lead4 b0 b1 && utf8_cont b2 && utf8_cont b3
                        then ((b0 - 240) * 262144 + (b1 - 128) * 4096
                              + (b2 - 128) * 64 + (b3 - 128))%N
                             :: utf8_decode r3
                        else surrogate_escape b0 :: utf8_decode r0
                    end
              end
        end
  end.

Definition fsdecode (s : string) : list N :=
  utf8_decode (N_of_ascii <$> list_ascii_of_string s).

(** The class [\d] of a pattern on [str]: the Unicode decimal digits.
    They come in runs of ten, zero to nine; [zeros] lists the code point
    of the zero of each run other than the ASCII one (the table of the
    interpreter's Unicode database).  The value of a digit is its place
    in its run, which is what [int] reads. *)
Fixpoint decimal_in (zeros : list N) (c : N) : option Z :=
  match zeros with
  | [] => None
  | z :: zs =>
      if (z <=? c)%N && (c <? z + 10)%N then Some (Z.of_N (c - z))
      else decimal_in zs c
  end.

Definition digit_val (zeros : list N) (c : N) : option Z :=
  decimal_in (48%N :: zeros) c.

Definition is_digit (zeros : list N) (c : N) : bool :=
  match digit_val zeros c with Some _ => true | None => false end.

(** The longest prefix of digits: what the greedy [\d+] consumes. *)
Fixpoint take_digits (zeros : list N) (s : list N) : list N :=
  match s with
  | [] => []
  | c :: s' => if is_digit zeros c then c :: take_digits zeros s' else []
  end.

Fixpoint strip_prefix (p s : list N) : option (list N) :=
  match p, s with
  | [], _ => Some s
  | a :: p', b :: s' => if decide (a = b) then strip_prefix p' s' else None
  | _ :: _, [] => None
  end.

(** The literal part of the pattern. *)
Definition minppmm_literal : list N := fsdecode "minppmm".

(** A match of [minppmm(\d+)] starting at the first character: the
    captured group. *)
Definition match_here (zeros : list N) (s : list N) : option (list N) :=
  match strip_prefix minppmm_literal s with
  | Some rest =>
      match take_digits zeros rest with
      | [] => None
      | ds => Some ds
      end
  | None => None
  end.

(** [pattern.search]: the match at the leftmost position that has one. *)
Fixpoint re_search (zeros : list N) (s : list N) : option (list N) :=
  match match_here zeros s with
  | Some ds => Some ds
  | None =>
      match s with
      | [] => None
      | _ :: s' => re_search zeros s'
      end
  end.

Fixpoint py_int_from (zeros : list N) (acc : Z) (ds : list N) : Z :=
  match ds with
  | [] => acc
  | c :: ds' =>
      py_int_from zeros (10 * acc + default 0 (digit_val zeros c)) ds'
  end.

(** [int] refuses a string of more digits than the interpreter's limit
    ([sys.get_int_max_str_digits()], 4300 unless it was changed; 0 is no
    limit); strings of 640 digits or fewer are never refused. *)
Definition int_limit_exceeded (limit : N) (ndigits : nat) : bool :=
  (640 <? ndigits)%nat && (0 <? limit)%N && (limit <? N.of_nat ndigits)%N.

(** [int(ds)] on a string of decimal digits. *)
Definition py_int (zeros : list N) (limit : N) (ds : list N) : result Z :=
  if int_limit_exceeded limit (length ds) then Raise ValueError
  else Ok (py_int_from zeros 0 ds).

(** ** Python's [sorted] *)

(** Stable insertion sort for a strict order given as a boolean function:
    an element is placed after the elements smaller than it and before
    those that are not, so equal elements keep their order.  Any stable
    sort returns this list. *)
Fixpoint insert_by {A K} (lt : K → K → bool) (key : A → K)
    (x : A) (l : list A) : list A :=
  match l with
  | [] => [x]
  | y :: ys =>
      if lt (key y) (key x) then y :: insert_by lt key x ys else x :: y :: ys
  end.

Fixpoint sort_by {A K} (lt : K → K → bool) (key : A → K)
    (l : list A) : list A :=
  match l with
  | [] => []
  | x :: xs => insert_by lt key x (sort_by lt key xs)
  end.

(** [sorted(l)] on strings and on integers. *)
Definition sorted_str (l : list string) : list string :=
  sort_by String.ltb id l.

Definition sorted_Z (l : list Z) : list Z := sort_by Z.ltb id l.

(** [<] on lists of strings. *)
Fixpoint list_str_ltb (l m : list string) : bool :=
  match l, m with
  | [], [] => false
  | [], _ :: _ => true
  | _ :: _, [] => false
  | a :: l', b :: m' =>
      if decide (a = b) then list_str_ltb l' m' else String.ltb a b
  end.

(** [a < b] on Python values: values of different types, and [None], do
    not compare. *)
Definition py_lt (a b : pyval) : result bool :=
  match a, b with
  | PStr s, PStr t => Ok (String.ltb s t)
  | PInt x, PInt y => Ok (Z.ltb x y)
  | PList l, PList m => Ok (list_str_ltb l m)
  | _, _ => Raise TypeError
  end.

(** The same insertion sort on (key, element) pairs with the fallible
    comparison.  A list of two or more elements whose keys do not all
    compare raises [TypeError], as it does for every comparison sort. *)
Fixpoint insert_decorated {A} (x : pyval * A) (l : list (pyval * A))
    : result (list (pyval * A)) :=
  match l with
  | [] => Ok [x]
  | y :: ys =>
      b ← py_lt y.1 x.1;
      if b : bool then r ← insert_decorated x ys; Ok (y :: r)
      else Ok (x :: y :: ys)
  end.

Fixpoint sort_decorated {A} (l : list (pyval * A))
    : result (list (pyval * A)) :=
  match l with
  | [] => Ok []
  | x :: xs => s ← sort_decorated xs; insert_decorated x s
  end.

(** [sorted(l, key=key)]: the keys are computed first, for every element,
    then the elements are ordered by them. *)
Definition sorted {A} (l : list A) (key : A → result pyval)
    : result (list A) :=
  ks ← result_map key l;
  d ← sort_decorated (zip ks l);
  Ok (d.*2).

(** ** The world and the monad of effects *)

Inductive fs_event : Type :=
| EvIsFile (path : string)
| EvListDir (path : string)
| EvOpenRead (path : string)
| EvCopy (src dst : string)
| EvOpenWrite (path : string)
| EvWrite (path : string) (data : string).

Inductive level : Type := INFO | WARNING | CRITICAL.

(** The messages of the program, with their arguments unformatted. *)
Inductive log_msg : Type :=
| MsgProcessingPlume (plume : record)
| MsgPlume (plume : record)
| MsgProcessingWinds (subdir : string)
| MsgComputedPlume (plume : record)
| MsgFlist (flist : list string)
| MsgPlumes (plumes : list record)
| MsgComputedPlumes (plumes : list record)
| MsgBackedUp (fname_bak : string)
| MsgSortKeyNotFound (sort_by_key : string)
| MsgLeftUnsorted
| MsgCouldNotWrite (plume : record)
| MsgCheckFields (fname : string)
| MsgWritten (fname : string)
| MsgSkippedEmpty
| MsgNothingToDo.

Record world : Type := World {
  files : gmap string string;        (* regular files: path to contents *)
  dirs : gmap string (list string);  (* directories: path to the entries,
                                        in the order the system lists them *)
  trace : list fs_event;             (* file-system calls, oldest first *)
  log : list (level * log_msg);      (* what the logger received *)
  stdout : list string               (* what [print] wrote *)
}.

Definition M (A : Type) : Type := world → result A * world.

#[global] Instance M_ret : MRet M := λ A a w, (Ok a, w).
#[global] Instance M_bind : MBind M := λ A B f m w,
  match m w with
  | (Ok a, w') => f a w'
  | (Raise e, w') => (Raise e, w')
  end.

(** A pure computation, whose exception propagates. *)
Definition lift {A} (r : result A) : M A := λ w, (r, w).

(** [try: body except OSError: handler] *)
Definition try_except_OSError {A} (body handler : M A) : M A := λ w,
  match body w with
  | (Raise OSError, w') => handler w'
  | rw => rw
  end.

(** [try: body except: handler] *)
Definition try_except {A} (body handler : M A) : M A := λ w,
  match body w with
  | (Raise _, w') => handler w'
  | rw => rw
  end.

Fixpoint for_each {A} (f : A → M unit) (l : list A) : M unit :=
  match l with
  | [] => mret tt
  | x :: xs => f x;; for_each f xs
  end.

(** [[f(x) for x in l]] *)
Fixpoint M_map {A B} (f : A → M B) (l : list A) : M (list B) :=
  match l with
  | [] => mret []
  | x :: xs => y ← f x; ys ← M_map f xs; mret (y :: ys)
  end.

(** A loop that carries a value. *)
Fixpoint M_fold {A S} (f : S → A → M S) (s : S) (l : list A) : M S :=
  match l with
  | [] => mret s
  | x :: xs => s' ← f s x; M_fold f s' xs
  end.

Definition record_event (e : fs_event) (w : world) : world :=
  World (files w) (dirs w) (trace w ++ [e]) (log w) (stdout w).

Definition set_file (path data : string) (w : world) : world :=
  World (<[path := data]> (files w)) (dirs w) (trace w) (log w) (stdout w).

(** The logger is optional ([logger=None]). *)
Inductive Logger : Type := TheLogger.

(** [if logger is not None: logger.<lvl>(msg)] *)
Definition log_if (logger : option Logger) (lvl : level) (msg : log_msg)
    : M unit := λ w,
  match logger with
  | Some _ =>
      (Ok tt, World (files w) (dirs w) (trace w) (log w ++ [(lvl, msg)])
                    (stdout w))
  | None => (Ok tt, w)
  end.

Definition print (line : string) : M unit := λ w,
  (Ok tt, World (files w) (dirs w) (trace w) (log w) (stdout w ++ [line])).

(** [os.path.isfile(path)] *)
Definition os_path_isfile (path : string) : M bool := λ w,
  (Ok (bool_decide (is_Some (files w !! path))),
   record_event (EvIsFile path) w).

(** [os.listdir(path)] *)
Definition os_listdir (path : string) : M (list string) := λ w,
  (match dirs w !! path with
   | Some entries => Ok entries
   | None => Raise OSError
   end, record_event (EvListDir path) w).

(** [open(path, 'r')] and reading the whole file. *)
Definition read_file (path : string) : M string := λ w,
  (match files w !! path with
   | Some data => Ok data
   | None => Raise OSError
   end, record_event (EvOpenRead path) w).

(** [copyfile(src, dst)] *)
Definition copyfile (src dst : string) : M unit := λ w,
  match files w !! src with
  | Some data => (Ok tt, set_file dst data (record_event (EvCopy src dst) w))
  | None => (Raise OSError, record_event (EvCopy src dst) w)
  end.

Fixpoint ends_with_slash (s : string) : bool :=
  match s with
  | "" => false
  | String c "" => bool_decide (c = "/"%char)
  | String _ s' => ends_with_slash s'
  end.

Definition is_slash (c : ascii) : bool := bool_decide (c = "/"%char).

Fixpoint drop_while {A} (f : A → bool) (l : list A) : list A :=
  match l with
  | [] => []
  | x :: l' => if f x then drop_while f l' else l
  end.

(** [os.path.dirname(path)] (POSIX): the path up to its last slash,
    without the slashes that end it unless it is made of slashes only. *)
Definition os_path_dirname (path : string) : string :=
  let head :=
    rev (drop_while (λ c, negb (is_slash c))
           (rev (list_ascii_of_string path))) in
  string_of_list_ascii
    (if forallb is_slash head then head
     else rev (drop_while is_slash (rev head))).

(** Whether [open(path, 'w')] succeeds.  A file that exists is opened.
    A file that does not exist is created if its name is not empty, does
    not end in a slash and is not the name of a directory, and if the
    directory it goes to exists: the current directory or the root, or a
    directory of the world.  Permissions and full disks are left out:
    every file and directory that exists can be read and written. *)
Definition can_open_for_writing (w : world) (path : string) : bool :=
  bool_decide (is_Some (files w !! path))
  || (negb (bool_decide (path = "")) && negb (ends_with_slash path)
      && negb (bool_decide (is_Some (dirs w !! path)))
      && (forallb is_slash (list_ascii_of_string (os_path_dirname path))
          || bool_decide (is_Some (dirs w !! os_path_dirname path)))).

(** [open(path, 'w')]: the file is created or emptied; [OSError]
    ([FileNotFoundError], [IsADirectoryError]) when it cannot be. *)
Definition open_write (path : string) : M unit := λ w,
  if can_open_for_writing w path
  then (Ok tt, set_file path "" (record_event (EvOpenWrite path) w))
  else (Raise OSError, record_event (EvOpenWrite path) w).

(** Writing to the file opened for writing: the data goes to its end. *)
Definition write_file (path data : string) : M unit := λ w,
  (Ok tt, set_file path (default "" (files w !! path) +:+ data)
            (record_event (EvWrite path data) w)).

(** [os.path.join(a, b)] for an entry name [b] (POSIX). *)

Definition os_path_join (a b : string) : string :=
  if bool_decide (a = "") then b
  else if ends_with_slash a then a +:+ b
  else a +:+ "/" +:+ b.

(** [f.startswith('.')] *)
Definition startswith_dot (f : string) : bool :=
  match f with
  | String c _ => bool_decide (c = "."%char)
  | "" => false
  end.

(** ** What the program imports *)

(** [WindType(subdir)]: the classification of a wind directory name. *)
Record wind_type : Type := MkWindType {
  is_unknown : bool;
  type_as_str : string;
  alts : list Z   (* the altitudes, in the order [alts()] yields them *)
}.

(** What the core takes from outside: the row layer of the [csv] module
    ([csv.reader] on the text of a file, with its [skipinitialspace]
    flag, and [csv.writer.writerow], which also turns the values into
    text), the wind classifier, the two statistics functions of
    [wind_processor.running_windspeed], and two facts of the
    interpreter: the decimal digits of its Unicode database and its limit
    on the digits of a string that [int] converts.

    The classifier and the statistics functions are taken as functions
    of their arguments: the wind data they read is not part of the
    [world], so no property below speaks of their own accesses to the
    file system.  Altitudes are taken to be integers. *)
Record externals : Type := Externals {
  csv_reader : bool → string → result (list (list string));
  csv_writerow : list pyval → string;
  WindType : string → wind_type;
  compute_wind_stats :
    record → string → pyval → string → Z → option Logger → result record;
  compute_emission_rate :
    record → string → pyval → option Logger → result record;
  unicode_decimal_zeros : list N;
  int_max_str_digits : N
}.

Definition get_minppmm_from_fname (E : externals) (fname : string)
    : result Z :=
  match re_search (unicode_decimal_zeros E) (fsdecode fname) with
  | None => Raise ValueError
  | Some ds => py_int (unicode_decimal_zeros E) (int_max_str_digits E) ds
  end.

(** ** [csv.DictReader] and [csv.DictWriter] *)

(** One row of a [DictReader]: cells beyond the header go, as a list,
    under the key [None]; missing cells are [None]. *)
Definition DictReader_row (fieldnames row : list string) : record :=
  let d := dict_zip (KStr <$> fieldnames) (PStr <$> row) in
  let lf := length fieldnames in
  let lr := length row in
  if (lf <? lr)%nat then dict_set KNone (PList (drop lf row)) d
  else foldl (λ acc key, dict_set (KStr key) PNone acc) d (drop lr fieldnames).

(** [list(DictReader(f))] on the rows of the file: the first row is the
    header, empty rows are not returned. *)
Definition DictReader_rows (rows : list (list string)) : list record :=
  match rows with
  | [] => []
  | fieldnames :: data =>
      DictReader_row fieldnames <$> filter (λ row, row ≠ []) data
  end.

(** [DictWriter._dict_to_list] with [extrasaction='raise'] and
    [restval='']. *)
Definition dict_to_list (fieldnames : list pykey) (rowdict : record)
    : result (list pyval) :=
  if forallb (λ k, bool_decide (k ∈ fieldnames)) (dict_keys rowdict)
  then Ok ((λ key, default (PStr "") (dict_get key rowdict)) <$> fieldnames)
  else Raise ValueError.

Definition DictWriter_writerow (E : externals) (fname : string)
    (fieldnames : list pykey) (rowdict : record) : M unit :=
  row ← lift (dict_to_list fieldnames rowdict);
  write_file fname (csv_writerow E row).

Definition key_as_value (k : pykey) : pyval :=
  match k with
  | KNone => PNone
  | KStr s => PStr s
  end.

Definition DictWriter_writeheader (E : externals) (fname : string)
    (fieldnames : list pykey) : M unit :=
  DictWriter_writerow E fname fieldnames
    (dict_zip fieldnames (key_as_value <$> fieldnames)).

(** ** The program *)

(** The body of the loop over the altitudes of a wind type. *)
Definition process_plume_alt (E : externals) (winds_subdir : string)
    (fill : pyval) (wind_type : string) (logger : option Logger)
    (plume : record) (alt : Z) : M record :=
  wind_stats ← lift (compute_wind_stats E plume winds_subdir fill wind_type
                       alt logger);
  mret (dict_update plume wind_stats).

(** The body of the loop over the wind directories; it carries the plume
    and [emission_stats]. *)
Definition process_plume_subdir (E : externals) (winds_dir : string)
    (fill : pyval) (logger : option Logger) (st : record * record)
    (subdir : string) : M (record * record) :=
  let '(plume, emission_stats) := st in
  log_if logger INFO (MsgProcessingWinds subdir);;
  let wt := WindType E subdir in
  if is_unknown wt then mret (plume, emission_stats)
  else
    let wind_type := type_as_str wt in
    let winds_subdir := os_path_join winds_dir subdir in
    let alts := sorted_Z (alts wt) in
    plume ← M_fold (process_plume_alt E winds_subdir fill wind_type logger)
              plume alts;
    rate ← lift (compute_emission_rate E plume wind_type fill logger);
    mret (plume, dict_update emission_stats rate).

Definition process_plume (E : externals) (plume : record)
    (winds_dir : string) (fill : pyval) (logger : option Logger)
    : M record :=
  log_if logger WARNING (MsgProcessingPlume plume);;
  log_if logger INFO (MsgPlume plume);;
  entries ← os_listdir winds_dir;
  st ← M_fold (process_plume_subdir E winds_dir fill logger) (plume, [])
         (sorted_str (filter (λ f, negb (startswith_dot f)) entries));
  let plume := dict_update st.1 st.2 in
  log_if logger INFO (MsgComputedPlume plume);;
  mret plume.

Definition dict_reader_plus_update (E : externals) (fname : string)
    (d : record) : M (list record) :=
  text ← read_file fname;
  rows ← lift (csv_reader E true text);
  mret ((λ row, dict_update row d) <$> DictReader_rows rows).

Definition default_minppmm_key : string := "Minimum Threshold (ppmm)".

(** The element of the list comprehension of [process_plumes]: the
    threshold is parsed from the name, then the file is read. *)
Definition read_plume_file (E : externals) (minppmm_key : string)
    (fname : string) : M (list record) :=
  minppmm ← lift (get_minppmm_from_fname E fname);
  dict_reader_plus_update E fname [(KStr minppmm_key, PInt minppmm)].

Definition process_plumes (E : externals) (flist : list string)
    (winds_dir : string) (fill : pyval) (minppmm_key : string)
    (logger : option Logger) : M (list record) :=
  log_if logger INFO (MsgFlist flist);;
  per_file ← M_map (read_plume_file E minppmm_key) flist;
  let plumes := concat per_file in
  first ← lift (list_first plumes);
  sort_by_key ← lift (list_first (dict_keys first));
  plumes ← lift (sorted plumes (dict_getitem sort_by_key));
  log_if logger INFO (MsgPlumes plumes);;
  plumes_ext ← M_map (λ plume, process_plume E plume winds_dir fill logger)
                 plumes;
  log_if logger INFO (MsgComputedPlumes plumes_ext);;
  mret plumes_ext.

Definition insert_plumes_in_file (E : externals) (plumes : list record)
    (fname : string) (sort_by_key : option string)
    (logger : option Logger) : M unit :=
  if (0 <? length plumes)%nat then
    isfile ← os_path_isfile fname;
    plumes ← (if isfile : bool then
        text ← read_file fname;
        rows ← lift (csv_reader E false text);
        let plumes := (DictReader_rows rows ++ plumes)%list in
        let fname_bak := fname +:+ ".bak" in
        copyfile fname fname_bak;;
        log_if logger CRITICAL (MsgBackedUp fname_bak);;
        mret plumes
      else mret plumes);
    plumes ← match sort_by_key with
      | Some key =>
          first ← lift (list_first plumes);
          if dict_contains (KStr key) first
          then lift (sorted plumes (dict_getitem (KStr key)))
          else
            log_if logger WARNING (MsgSortKeyNotFound key);;
            log_if logger WARNING MsgLeftUnsorted;;
            mret plumes
      | None => mret plumes
      end;
    first ← lift (list_first plumes);
    let field_names := dict_keys first in
    open_write fname;;
    DictWriter_writeheader E fname field_names;;
    for_each (λ plume,
        try_except (DictWriter_writerow E fname field_names plume)
          (log_if logger WARNING (MsgCouldNotWrite plume);;
           log_if logger WARNING (MsgCheckFields fname)))
      plumes;;
    log_if logger CRITICAL (MsgWritten fname)
  else
    log_if logger WARNING MsgSkippedEmpty.

(** [main], after [parse_args] returned the input file, the wind
    directory and the output file. *)
Definition main (E : externals) (plume_file : option string)
    (winds_dir out_fname : string) : M unit :=
  let logger := Some TheLogger in
  match plume_file with
  | Some plume_file =>
      try_except_OSError
        (plumes ← process_plumes E [plume_file] winds_dir (PInt (-9999))
                    default_minppmm_key logger;
         insert_plumes_in_file E plumes out_fname (Some "Candidate ID")
           logger)
        (print ("Could not find file: " +:+ plume_file))
  | None => log_if logger WARNING MsgNothingToDo
  end.

(** ** A concrete [csv] row layer, for running the program

    The [excel] dialect the program uses: a row is written with its cells
    separated by commas and ended by CR LF, a cell that contains a comma, a
    quote, CR or LF is quoted; a file is read in text mode (CR LF and CR
    become LF) and split into lines and cells.  [plain_reader] splits on
    commas only: it is [csv.reader] on texts without quote characters, and
    raises on the byte 255, which no UTF-8 text contains. *)

Definition CR : ascii := "013"%char.
Definition LF : ascii := "010"%char.
Definition QUOTE : ascii := "034"%char.

Fixpoint string_concat (l : list string) : string :=
  match l with
  | [] => ""
  | s :: l' => s +:+ string_concat l'
  end.

Fixpoint string_join (sep : string) (l : list string) : string :=
  match l with
  | [] => ""
  | [s] => s
  | s :: l' => s +:+ sep +:+ string_join sep l'
  end.

Fixpoint string_mem (c : ascii) (s : string) : bool :=
  match s with
  | "" => false
  | String c' s' => bool_decide (c' = c) || string_mem c s'
  end.

Fixpoint double_quotes (s : string) : string :=
  match s with
  | "" => ""
  | String c s' =>
      if decide (c = QUOTE) then String QUOTE (String QUOTE (double_quotes s'))
      else String c (double_quotes s')
  end.

Definition excel_cell (s : string) : string :=
  if string_mem ","%char s || string_mem QUOTE s
     || string_mem CR s || string_mem LF s
  then String QUOTE (double_quotes s) +:+ String QUOTE ""
  else s.

(** [str(v)] as [csv.writer] applies it ([None] is written empty). *)
Definition py_str (v : pyval) : string :=
  match v with
  | PNone => ""
  | PStr s => s
  | PInt z => NilZero.string_of_int (Z.to_int z)
  | PList l => "[" +:+ string_join ", " ((λ s, "'" +:+ s +:+ "'") <$> l) +:+ "]"
  end.

Definition excel_writerow (row : list pyval) : string :=
  match row with
  | [v] =>
      (if bool_decide (py_str v = "") then String QUOTE (String QUOTE "")
       else excel_cell (py_str v)) +:+ String CR (String LF "")
  | _ =>
      string_join "," (excel_cell ∘ py_str <$> row) +:+ String CR (String LF "")
  end.

Fixpoint universal_newlines (s : string) : string :=
  match s with
  | "" => ""
  | String c s' =>
      if decide (c = CR) then
        String LF
          (match s' with
           | String c' s'' =>
               if decide (c' = LF) then universal_newlines s''
               else universal_newlines s'
           | "" => ""
           end)
      else String c (universal_newlines s')
  end.

Fixpoint split_on (sep : ascii) (s : string) : list string :=
  match s with
  | "" => [""]
  | String c s' =>
      if decide (c = sep) then "" :: split_on sep s'
      else
        match split_on sep s' with
        | f :: fs => String c f :: fs
        | [] => [String c ""]
        end
  end.

(** The lines of a text file, without their terminators. *)
Definition text_lines (s : string) : list string :=
  let parts := split_on LF s in
  match reverse parts with
  | "" :: before => reverse before
  | _ => parts
  end.

Fixpoint lstrip_spaces (s : string) : string :=
  match s with
  | String c s' => if decide (c = " "%char) then lstrip_spaces s' else s
  | "" => ""
  end.

Definition plain_reader (skipinitialspace : bool) (text : string)
    : result (list (list string)) :=
  if string_mem "255"%char text then Raise UnicodeDecodeError
  else
    Ok ((λ line,
          if bool_decide (line = "") then []
          else (if skipinitialspace then lstrip_spaces else id)
                 <$> split_on ","%char line)
        <$> text_lines (universal_newlines text)).

(** ** Notions used to state the properties *)

(** [c] is a decimal digit of value [v]: it stands [v] places after the
    zero of one of the runs of digits. *)
Definition digit_of (zeros : list N) (c : N) (v : Z) : Prop :=
  ∃ z, z ∈ 48%N :: zeros ∧ (z ≤ c < z + 10)%N ∧ v = Z.of_N (c - z).

Definition decimal_digit (zeros : list N) (c : N) : Prop :=
  ∃ v, digit_of zeros c v.

(** The characters [chars] are [pre], then a match of [minppmm\d+] with
    digits [ds], then [post]. *)
Definition regex_match (zeros : list N) (chars pre ds post : list N) : Prop :=
  chars = pre ++ minppmm_literal ++ ds ++ post ∧ ds ≠ [] ∧
  Forall (decimal_digit zeros) ds.

Definition has_match (zeros : list N) (chars : list N) : Prop :=
  ∃ pre ds post, regex_match zeros chars pre ds post.

(** [post] does not go on with a digit. *)
Definition digits_end (zeros : list N) (post : list N) : Prop :=
  ∀ c post', post = c :: post' → ¬ decimal_digit zeros c.

(** The integer a sequence of digit values writes in decimal: each digit
    counts for itself times ten to the number of digits after it. *)
Fixpoint decimal_value (vs : list Z) : Z :=
  match vs with
  | [] => 0
  | v :: vs' => v * 10 ^ Z.of_nat (length vs') + decimal_value vs'
  end.

(** A name whose digit group has 4301 digits. *)
Definition long_threshold_name : string :=
  "minppmm" +:+ string_of_list_ascii (replicate 4301 "1"%char) +:+ ".csv".

(** [a] may stand before [b] in a list sorted by [key]: the key of [b] is
    not smaller than the key of [a]. *)
Definition key_le {A K} (lt : K → K → bool) (key : A → K) (a b : A) : Prop :=
  lt (key b) (key a) = false.

(** The string a record holds under [k] (empty when it holds none). *)
Definition str_key (k : pykey) (d : record) : string :=
  match dict_get k d with
  | Some (PStr s) => s
  | _ => ""
  end.

(** Every record of the list holds a string under [k]. *)
Definition all_str_keys (k : pykey) (l : list record) : Prop :=
  ∀ d, d ∈ l → ∃ s, dict_get k d = Some (PStr s).

(** [l'] is [l] stably sorted by the strings held under [k]. *)
Definition stably_sorted_by (k : pykey) (l l' : list record) : Prop :=
  l' ≡ₚ l ∧
  Sorted (key_le String.ltb (str_key k)) l' ∧
  ∀ s, filter (λ d, str_key k d = s) l' = filter (λ d, str_key k d = s) l.

(** The record has no key outside the header: [writerow] accepts it. *)
Definition fits (fieldnames : list pykey) (d : record) : bool :=
  forallb (λ k, bool_decide (k ∈ fieldnames)) (dict_keys d).

(** The cells [writerow] writes for a record: the value of each header
    field, the empty string for a field the record lacks. *)
Definition row_cells (fieldnames : list pykey) (d : record) : list pyval :=
  (λ key, default (PStr "") (dict_get key d)) <$> fieldnames.

(** The text of the rows written for a list of records: the records that
    fit the header, in order. *)
Definition rows_written (E : externals) (fieldnames : list pykey)
    (plumes : list record) : list string :=
  (λ d, csv_writerow E (row_cells fieldnames d))
    <$> filter (λ d, fits fieldnames d) plumes.

(** The text of the table written for a list of records, under the header
    of its first record. *)
Definition table_text (E : externals) (plumes : list record) : string :=
  let fieldnames := dict_keys (default [] (head plumes)) in
  csv_writerow E (key_as_value <$> fieldnames)
  +:+ string_concat (rows_written E fieldnames plumes).

(** The warnings logged for the records that are not written. *)
Definition skip_warnings (logger : option Logger) (fname : string)
    (fieldnames : list pykey) (plumes : list record)
    : list (level * log_msg) :=
  match logger with
  | Some _ =>
      concat ((λ d, [(WARNING, MsgCouldNotWrite d);
                     (WARNING, MsgCheckFields fname)])
              <$> filter (λ d, ¬ fits fieldnames d) plumes)
  | None => []
  end.

(** The records already in the output file, as [insert_plumes_in_file]
    reads them; none when there is no file. *)
Definition existing_records (E : externals) (fname : string) (w : world)
    : result (list record) :=
  match files w !! fname with
  | Some text => rows ← csv_reader E false text; Ok (DictReader_rows rows)
  | None => Ok []
  end.

(** Two worlds that differ at most in the log. *)
Definition same_but_log (w1 w2 : world) : Prop :=
  files w1 = files w2 ∧ dirs w1 = dirs w2 ∧ trace w1 = trace w2
  ∧ stdout w1 = stdout w2.

(** Two worlds that differ at most in the directory listings. *)
Definition same_but_dirs (w1 w2 : world) : Prop :=
  files w1 = files w2 ∧ trace w1 = trace w2 ∧ log w1 = log w2
  ∧ stdout w1 = stdout w2.

(** Two worlds with the same directories. *)
Definition same_dirs (w1 w2 : world) : Prop := dirs w1 = dirs w2.

(** Two computations return the same and keep worlds related by [R]
    related. *)
Definition M_rel {A} (R : world → world → Prop) (m1 m2 : M A) : Prop :=
  ∀ w1 w2, R w1 w2 → (m1 w1).1 = (m2 w2).1 ∧ R (m1 w1).2 (m2 w2).2.

(** The statistics functions do not depend on the logger they are
    handed. *)
Definition logger_is_observational (E : externals) : Prop :=
  (∀ plume subdir fill wind_type alt logger,
     compute_wind_stats E plume subdir fill wind_type alt logger
     = compute_wind_stats E plume subdir fill wind_type alt None) ∧
  (∀ plume wind_type fill logger,
     compute_emission_rate E plume wind_type fill logger
     = compute_emission_rate E plume wind_type fill None).

(** Two classifiers that differ at most in the order in which the
    altitudes of a wind type are enumerated. *)
Definition same_classification (E1 E2 : externals) : Prop :=
  ∀ subdir,
    is_unknown (WindType E1 subdir) = is_unknown (WindType E2 subdir) ∧
    type_as_str (WindType E1 subdir) = type_as_str (WindType E2 subdir) ∧
    alts (WindType E1 subdir) ≡ₚ alts (WindType E2 subdir).

(** The sorting step of [insert_plumes_in_file] on the combined list. *)
Definition sort_step (sort_by_key : option string) (l : list record)
    : result (list record) :=
  match sort_by_key, l with
  | Some key, first :: _ =>
      if dict_contains (KStr key) first
      then sorted l (dict_getitem (KStr key))
      else Ok l
  | Some _, [] => Raise IndexError
  | None, _ => Ok l
  end.

(** The warnings of the sorting step. *)
Definition sort_warnings (logger : option Logger)
    (sort_by_key : option string) (l : list record)
    : list (level * log_msg) :=
  match logger, sort_by_key, l with
  | Some _, Some key, first :: _ =>
      if dict_contains (KStr key) first then []
      else [(WARNING, MsgSortKeyNotFound key); (WARNING, MsgLeftUnsorted)]
  | _, _, _ => []
  end.

(** The world when [insert_plumes_in_file] has looked for the output
    file and, if there is one, read it and copied it. *)
Definition backup_world (fname : string) (logger : option Logger)
    (w : world) : world :=
  match files w !! fname with
  | Some text =>
      World (<[fname +:+ ".bak" := text]> (files w)) (dirs w)
        (trace w ++ [EvIsFile fname; EvOpenRead fname;
                     EvCopy fname (fname +:+ ".bak")])
        (log w ++ match logger with
                  | Some _ => [(CRITICAL, MsgBackedUp (fname +:+ ".bak"))]
                  | None => []
                  end)
        (stdout w)
  | None =>
      World (files w) (dirs w) (trace w ++ [EvIsFile fname]) (log w)
        (stdout w)
  end.

(** The world when [insert_plumes_in_file] has written the records
    [all], starting from the world [wb] reached after the backup. *)
Definition written_world (E : externals) (fname : string)
    (sort_by_key : option string) (logger : option Logger)
    (combined all : list record) (wb : world) : world :=
  let fieldnames := dict_keys (default [] (head all)) in
  World (<[fname := table_text E all]> (files wb)) (dirs wb)
    (trace wb ++ EvOpenWrite fname
       :: EvWrite fname (csv_writerow E (key_as_value <$> fieldnames))
       :: (EvWrite fname <$> rows_written E fieldnames all))
    (log wb ++ sort_warnings logger sort_by_key combined
       ++ skip_warnings logger fname fieldnames all
       ++ match logger with
          | Some _ => [(CRITICAL, MsgWritten fname)]
          | None => []
          end)
    (stdout wb).

(** The world when the output file could not be opened for writing,
    starting from the world [wb] reached after the backup. *)
Definition refused_world (fname : string) (sort_by_key : option string)
    (logger : option Logger) (combined : list record) (wb : world)
    : world :=
  World (files wb) (dirs wb) (trace wb ++ [EvOpenWrite fname])
    (log wb ++ sort_warnings logger sort_by_key combined) (stdout wb).

(** What a call of [insert_plumes_in_file] with a non-empty list comes
    to: it stops at the reading of the output file, or at the sorting, or
    at the opening of the output file, or writes the table. *)
Definition insert_outcome (E : externals) (plumes : list record)
    (fname : string) (sort_by_key : option string)
    (logger : option Logger) (w : world) : result unit * world :=
  match existing_records E fname w with
  | Raise e =>
      (Raise e,
       World (files w) (dirs w)
         (trace w ++ [EvIsFile fname; EvOpenRead fname]) (log w) (stdout w))
  | Ok old =>
      match sort_step sort_by_key (old ++ plumes) with
      | Raise e => (Raise e, backup_world fname logger w)
      | Ok all =>
          if can_open_for_writing w fname
          then (Ok tt,
                written_world E fname sort_by_key logger (old ++ plumes) all
                  (backup_world fname logger w))
          else (Raise OSError,
                refused_world fname sort_by_key logger (old ++ plumes)
                  (backup_world fname logger w))
      end
  end.

(** The part of [insert_plumes_in_file] that follows the backup, on the
    combined list. *)
Definition insert_plumes_tail (E : externals) (fname : string)
    (sort_by_key : option string) (logger : option Logger)
    (plumes : list record) : M unit :=
  plumes ← match sort_by_key with
    | Some key =>
        first ← lift (list_first plumes);
        if dict_contains (KStr key) first
        then lift (sorted plumes (dict_getitem (KStr key)))
        else
          log_if logger WARNING (MsgSortKeyNotFound key);;
          log_if logger WARNING MsgLeftUnsorted;;
          mret plumes
    | None => mret plumes
    end;
  first ← lift (list_first plumes);
  let field_names := dict_keys first in
  open_write fname;;
  DictWriter_writeheader E fname field_names;;
  for_each (λ plume,
      try_except (DictWriter_writerow E fname field_names plume)
        (log_if logger WARNING (MsgCouldNotWrite plume);;
         log_if logger WARNING (MsgCheckFields fname)))
    plumes;;
  log_if logger CRITICAL (MsgWritten fname).

(** A record paired with its sort key, when the key is a string. *)
Definition decorate {A} (skey : A → string) (a : A) : pyval * A :=
  (PStr (skey a), a).

(** The part of [process_plumes] that follows the sorting. *)
Definition enrich_plumes (E : externals) (plumes : list record)
    (winds_dir : string) (fill : pyval) (logger : option Logger)
    : M (list record) :=
  log_if logger INFO (MsgPlumes plumes);;
  plumes_ext ← M_map (λ plume, process_plume E plume winds_dir fill logger)
                 plumes;
  log_if logger INFO (MsgComputedPlumes plumes_ext);;
  mret plumes_ext.

(** [fname] names a plume file that holds no data row: the name carries
    a threshold and the file can be read, but it is empty, or has only a
    header, or only blank lines under it. *)
Definition no_data_rows (E : externals) (fs : gmap string string)
    (fname : string) : Prop :=
  (∃ n, get_minppmm_from_fname E fname = Ok n) ∧
  ∃ text rows,
    fs !! fname = Some text ∧ csv_reader E true text = Ok rows ∧
    DictReader_rows rows = [].

(** ** Frames *)

(** Every run of [m] takes a world [w] to a world related to it by [P]. *)
Definition M_keeps {A} (P : world → world → Prop) (m : M A) : Prop :=
  ∀ w, P w (m w).2.

(** From [w] to [w'] no file, directory or output line changed, and the
    file-system calls made in between are all [allowed]. *)
Definition reads_only (allowed : fs_event → Prop) (w w' : world) : Prop :=
  files w' = files w ∧ dirs w' = dirs w ∧ stdout w' = stdout w ∧
  ∃ evs, trace w' = trace w ++ evs ∧ Forall allowed evs.

(** The calls of the loader and of the enrichment: reading one of the
    input files, listing the wind root. *)
Definition loader_call (flist : list string) (winds_dir : string)
    (e : fs_event) : Prop :=
  (∃ fname, fname ∈ flist ∧ e = EvOpenRead fname) ∨ e = EvListDir winds_dir.

(** From [w] to [w'] no file changed but, at most, [fname] and its
    backup; directories are as they were. *)
Definition touches_only (fname : string) (w w' : world) : Prop :=
  dirs w' = dirs w ∧
  ∀ path, path ≠ fname → path ≠ fname +:+ ".bak" →
          files w' !! path = files w !! path.

(** [d'] has the fields of [d] first, in the same order, and is a
    dictionary if [d] is. *)
Definition extends_record (d d' : record) : Prop :=
  dict_keys d `prefix_of` dict_keys d' ∧
  (NoDup (dict_keys d) → NoDup (dict_keys d')).

(** The cells of a row of the output file under its header: the cells
    read, then [None] for each column the row does not reach. *)
Definition padded (header row : list string) : list pyval :=
  (PStr <$> row) ++ replicate (length header - length row) PNone.

(** ** Concrete inputs *)

Definition CRLF : string := String CR (String LF "").

(** A wind root with a [bulk] source at two altitudes; the statistics
    functions return one field per call. *)
Definition demo_WindType (subdir : string) : wind_type :=
  if bool_decide (subdir = "bulk") then MkWindType false "bulk" [1000; 500]
  else MkWindType true "" [].

Definition demo_wind_stats (plume : record) (winds_subdir : string)
    (fill : pyval) (wind_type : string) (alt : Z) (logger : option Logger)
    : result record :=
  Ok [(KStr ("wind " +:+ wind_type), PInt alt)].

Definition demo_emission_rate (plume : record) (wind_type : string)
    (fill : pyval) (logger : option Logger) : result record :=
  Ok [(KStr ("rate " +:+ wind_type),
       default fill (dict_get (KStr ("wind " +:+ wind_type)) plume))].

(** Some runs of decimal digits: Arabic-Indic, Extended Arabic-Indic,
    Devanagari, fullwidth. *)
Definition demo_decimal_zeros : list N := [1632; 1776; 2406; 65296]%N.

Definition demo : externals :=
  Externals plain_reader excel_writerow demo_WindType demo_wind_stats
    demo_emission_rate demo_decimal_zeros 4300.

Definition empty_world : world := World ∅ ∅ [] [] [].

(** Two records with the same fields, a third that lacks the field [B],
    a fourth with a field the others do not have. *)
Definition plume_1 : record := [(KStr "A", PStr "2"); (KStr "B", PStr "x")].
Definition plume_2 : record := [(KStr "A", PStr "1"); (KStr "B", PStr "y")].
Definition plume_short : record := [(KStr "A", PStr "3")].
Definition plume_wide : record :=
  [(KStr "A", PStr "4"); (KStr "B", PStr "z"); (KStr "C", PStr "extra")].

(** A world whose output file holds one row. *)
Definition out_world : world :=
  World {["out.csv" := "A,B" +:+ CRLF +:+ "0,w" +:+ CRLF]} ∅ [] [] [].

(** The same classifier as [demo], with the altitudes the other way
    round. *)
Definition demo_reordered : externals :=
  Externals plain_reader excel_writerow
    (λ subdir,
       if bool_decide (subdir = "bulk") then MkWindType false "bulk" [500; 1000]
       else MkWindType true "" [])
    demo_wind_stats demo_emission_rate demo_decimal_zeros 4300.

(** Two listings of the same wind root. *)
Definition winds_world_1 : world :=
  World ∅ {["winds" := ["zeta"; ".hidden"; "bulk"]]} [] [] [].

Definition winds_world_2 : world :=
  World ∅ {["winds" := ["bulk"; "zeta"; ".hidden"]]} [] [] [].

(** A world with two plume files, the second with a header only. *)
Definition plumes_world : world :=
  World {["ime_minppmm1000_a.csv" :=
            "Candidate ID, IME (kg)" +:+ CRLF +:+ "002, 7.5" +:+ CRLF
            +:+ "001, 120.5" +:+ CRLF;
          "ime_minppmm500_b.csv" := "Candidate ID, IME (kg)" +:+ CRLF]}
        {["winds" := ["zeta"; ".hidden"; "bulk"]]} [] [] [].

(** The records of the first plume file of [plumes_world], sorted and
    enriched. *)
Definition enriched_plumes : list record :=
  [[(KStr "Candidate ID", PStr "001"); (KStr "IME (kg)", PStr "120.5");
    (KStr "Minimum Threshold (ppmm)", PInt 1000);
    (KStr "wind bulk", PInt 1000); (KStr "rate bulk", PInt 1000)];
   [(KStr "Candidate ID", PStr "002"); (KStr "IME (kg)", PStr "7.5");
    (KStr "Minimum Threshold (ppmm)", PInt 1000);
    (KStr "wind bulk", PInt 1000); (KStr "rate bulk", PInt 1000)]].

(** A world with a plume file but no wind root. *)
Definition no_winds_world : world :=
  World {["ime_minppmm1000_a.csv" :=
            "Candidate ID, IME (kg)" +:+ CRLF +:+ "002, 7.5" +:+ CRLF]}
        ∅ [] [] [].

(** A world with two plume files whose first columns differ. *)
Definition mixed_world : world :=
  World {["ime_minppmm1000_a.csv" :=
            "Candidate ID,IME" +:+ CRLF +:+ "002,7.5" +:+ CRLF;
          "ime_minppmm500_c.csv" :=
            "Plume,IME" +:+ CRLF +:+ "001,3.5" +:+ CRLF]}
        {["winds" := ["zeta"]]} [] [] [].

(** A world whose output file has a row that stops before the column
    [B]. *)
Definition short_row_world : world :=
  World {["out.csv" := "A,B" +:+ CRLF +:+ "0" +:+ CRLF]} ∅ [] [] [].

(** A world whose output file has a row that goes beyond the column
    [B]. *)
Definition long_row_world : world :=
  World {["out.csv" := "A,B" +:+ CRLF +:+ "0,w" +:+ CRLF
                       +:+ "5,v,extra" +:+ CRLF]} ∅ [] [] [].

(** A world whose output file is not text: the byte 255 is part of no
    UTF-8 text, and reading the file raises. *)
Definition unreadable_world : world :=
  World {["out.csv" := "A,B" +:+ CRLF +:+ String "255" ",w" +:+ CRLF]} ∅
    [] [] [].

(** * Properties *)

(** ** The threshold parser *)

Example get_minppmm_path :
  get_minppmm_from_fname demo
    "ang20160101_detections/ime_minppmm1000/ang20160101_ime_minppmm0500_plumes.csv"
  = Ok 1000.
Proof. vm_compute. reflexivity. Qed.

Example get_minppmm_no_digits :
  get_minppmm_from_fname demo "ime_minppmm_plumes_minppm500.csv"
  = Raise ValueError.
Proof. vm_compute. reflexivity. Qed.

(** [\d] also takes the digits of other scripts: here ARABIC-INDIC DIGIT
    THREE, the bytes 217 and 163 in the name of the file. *)
Example get_minppmm_arabic_indic :
  get_minppmm_from_fname demo
    ("ime_minppmm1" +:+ String "217" (String "163" "_plumes.csv"))
  = Ok 13.
Proof. vm_compute. reflexivity. Qed.

Section parser.
Context (zeros : list N).

Lemma decimal_in_Some zs c v :
  decimal_in zs c = Some v →
  ∃ z, z ∈ zs ∧ (z ≤ c < z + 10)%N ∧ v = Z.of_N (c - z).
Proof.
  induction zs as [|z zs IH]; simpl; [done|].
  destruct ((z <=? c)%N && (c <? z + 10)%N) eqn:Hc.
  - apply andb_prop in Hc as [H1%N.leb_le H2%N.ltb_lt]. intros [= <-].
    exists z. split; [left|done].
  - intros (z' & Hin & H)%IH. exists z'. split; [by right|done].
Qed.

Lemma decimal_in_None zs c z :
  decimal_in zs c = None → z ∈ zs → ¬ (z ≤ c < z + 10)%N.
Proof.
  induction zs as [|z0 zs IH]; simpl; [by intros _ ?%elem_of_nil|].
  destruct ((z0 <=? c)%N && (c <? z0 + 10)%N) eqn:Hc; [done|].
  intros Hn [->|Hin]%elem_of_cons; [|by apply IH].
  apply andb_false_iff in Hc as [H%N.leb_gt|H%N.ltb_ge]; lia.
Qed.

Lemma digit_val_digit_of c v : digit_val zeros c = Some v → digit_of zeros c v.
Proof. apply decimal_in_Some. Qed.

Lemma is_digit_spec c : is_digit zeros c = true ↔ decimal_digit zeros c.
Proof.
  unfold is_digit. destruct (digit_val zeros c) as [v|] eqn:Hv.
  - split; [|done]. intros _. exists v. by apply digit_val_digit_of.
  - split; [done|]. intros (v & z & Hin & Hz & _).
    by destruct (decimal_in_None _ _ _ Hv Hin).
Qed.

Lemma all_digits_spec ds :
  forallb (is_digit zeros) ds = true ↔ Forall (decimal_digit zeros) ds.
Proof.
  induction ds as [|c ds IH]; simpl; [by split|].
  rewrite andb_true_iff, Forall_cons, IH, is_digit_spec. done.
Qed.

Lemma strip_prefix_Some p s rest :
  strip_prefix p s = Some rest ↔ s = p ++ rest.
Proof.
  revert s. induction p as [|a p IH]; intros s; simpl.
  - split; [intros [= ->]; done | intros ->; done].
  - destruct s as [|b s]; [split; [done | intros [=]]|].
    destruct (decide (a = b)) as [->|Hne].
    + rewrite IH. split; [intros ->; done | intros [= ->]; done].
    + split; [done | intros [= ? ?]; done].
Qed.

Lemma take_digits_split s :
  ∃ rest, s = take_digits zeros s ++ rest ∧ digits_end zeros rest.
Proof.
  induction s as [|c s [rest [IH1 IH2]]]; simpl.
  - exists []. split; [done|]. by intros ? ? ?.
  - destruct (is_digit zeros c) eqn:Hc.
    + exists rest. split; [|done]. simpl. by rewrite <- IH1.
    + exists (c :: s). split; [done|]. intros c' post' [= <- <-].
      rewrite <- is_digit_spec. by rewrite Hc.
Qed.

Lemma take_digits_all_digits s :
  Forall (decimal_digit zeros) (take_digits zeros s).
Proof.
  induction s as [|c s IH]; simpl; [done|].
  destruct (is_digit zeros c) eqn:Hc; [|done].
  constructor; [by apply is_digit_spec|done].
Qed.

Lemma take_digits_nonempty ds post :
  ds ≠ [] → Forall (decimal_digit zeros) ds →
  take_digits zeros (ds ++ post) ≠ [].
Proof.
  destruct ds as [|c ds]; [done|]. simpl. intros _ Hd.
  apply Forall_cons in Hd as [Hc%is_digit_spec _]. by rewrite Hc.
Qed.

Lemma match_here_Some s ds :
  match_here zeros s = Some ds →
  ∃ rest, s = minppmm_literal ++ ds ++ rest ∧ ds ≠ [] ∧
          Forall (decimal_digit zeros) ds ∧ digits_end zeros rest.
Proof.
  unfold match_here.
  destruct (strip_prefix minppmm_literal s) as [r|] eqn:Hp; [|done].
  apply strip_prefix_Some in Hp.
  destruct (take_digits_split r) as [rest [Hr1 Hr2]].
  pose proof (take_digits_all_digits r) as Hall.
  destruct (take_digits zeros r) as [|c t] eqn:Ht; [done|].
  intros [= <-]. exists rest. rewrite Hp, Hr1. done.
Qed.

Lemma match_here_None s ds post :
  match_here zeros s = None → ds ≠ [] → Forall (decimal_digit zeros) ds →
  s ≠ minppmm_literal ++ ds ++ post.
Proof.
  unfold match_here. intros Hm Hne Hall ->.
  assert (strip_prefix minppmm_literal (minppmm_literal ++ ds ++ post)
          = Some (ds ++ post)) as Hs by by apply strip_prefix_Some.
  rewrite Hs in Hm.
  pose proof (take_digits_nonempty ds post Hne Hall).
  by destruct (take_digits zeros (ds ++ post)).
Qed.

(** A successful search returns the digits of the leftmost match, taken
    as far as they go. *)
Lemma re_search_Some s ds :
  re_search zeros s = Some ds →
  ∃ pre post,
    regex_match zeros s pre ds post ∧ digits_end zeros post ∧
    ∀ pre' ds' post', regex_match zeros s pre' ds' post' →
                      (length pre ≤ length pre')%nat.
Proof.
  revert ds. induction s as [|c s IH]; intros ds.
  - vm_compute. intros [=].
  - cbn [re_search].
    destruct (match_here zeros (c :: s)) as [ds0|] eqn:Hm.
    + intros [= ->].
      apply match_here_Some in Hm as (rest & Hs & Hne & Hall & Hrest).
      exists [], rest. split; [done|]. split; [done|].
      intros. simpl. lia.
    + intros Hs.
      destruct (IH _ Hs) as (pre & post & (Heq & Hne & Hall) & Hpost & Hleft).
      exists (c :: pre), post.
      split; [split; [by rewrite Heq at 1|done]|]. split; [done|].
      intros pre' ds' post' (Heq' & Hne' & Hall').
      destruct pre' as [|c' pre'].
      * exfalso. by eapply (match_here_None _ ds' post' Hm).
      * simpl in Heq'. injection Heq' as -> Heq'. simpl.
        apply le_n_S, (Hleft pre' ds' post'). done.
Qed.

Lemma re_search_None s : re_search zeros s = None → ¬ has_match zeros s.
Proof.
  induction s as [|c s IH].
  - simpl. destruct (match_here zeros []) eqn:Hm; [done|].
    intros _ (pre & ds & post & Heq & Hne & Hall).
    destruct pre; [|done]. by eapply (match_here_None _ ds post Hm).
  - cbn [re_search]. destruct (match_here zeros (c :: s)) eqn:Hm; [done|].
    intros Hs (pre & ds & post & Heq & Hne & Hall).
    destruct pre as [|c' pre].
    + by eapply (match_here_None _ ds post Hm).
    + simpl in Heq. injection Heq as -> Heq. apply (IH Hs).
      by exists pre, ds, post.
Qed.

(** The accumulating loop of [int] computes the positional value of the
    digits; it reads each digit the [\d+] of the pattern has taken. *)
Lemma py_int_from_decimal acc ds :
  Forall (decimal_digit zeros) ds →
  ∃ vs, Forall2 (digit_of zeros) ds vs ∧
        py_int_from zeros acc ds
        = acc * 10 ^ Z.of_nat (length ds) + decimal_value vs.
Proof.
  intros Hall. revert acc.
  induction Hall as [|c ds Hc%is_digit_spec _ IH]; intros acc.
  - exists []. split; [constructor|]. simpl. lia.
  - unfold is_digit in Hc.
    destruct (digit_val zeros c) as [v|] eqn:Hv; [|done].
    destruct (IH (10 * acc + v)) as (vs & Hvs & Heq).
    exists (v :: vs). split; [constructor; [by apply digit_val_digit_of|done]|].
    cbn [py_int_from decimal_value length]. rewrite Hv. simpl default.
    rewrite Heq, <- (Forall2_length _ _ _ Hvs).
    rewrite Nat2Z.inj_succ, Z.pow_succ_r by lia. lia.
Qed.

Lemma digit_of_range c v : digit_of zeros c v → 0 ≤ v ≤ 9.
Proof. intros (z & _ & Hz & ->). lia. Qed.

Lemma decimal_value_nonneg ds vs :
  Forall2 (digit_of zeros) ds vs → 0 ≤ decimal_value vs.
Proof.
  induction 1 as [|c v ds vs Hv%digit_of_range _ IH]; simpl; [done|].
  assert (0 ≤ 10 ^ Z.of_nat (length vs)) by (apply Z.pow_nonneg; lia). nia.
Qed.

End parser.

(** What [get_minppmm_from_fname] does, case by case. *)
Lemma get_minppmm_from_fname_cases (E : externals) (fname : string) :
  (¬ has_match (unicode_decimal_zeros E) (fsdecode fname) ∧
   get_minppmm_from_fname E fname = Raise ValueError)
  ∨ (∃ pre ds post vs,
       regex_match (unicode_decimal_zeros E) (fsdecode fname) pre ds post ∧
       digits_end (unicode_decimal_zeros E) post ∧
       (∀ pre' ds' post',
          regex_match (unicode_decimal_zeros E) (fsdecode fname) pre' ds' post' →
          (length pre ≤ length pre')%nat) ∧
       Forall2 (digit_of (unicode_decimal_zeros E)) ds vs ∧
       get_minppmm_from_fname E fname
       = if int_limit_exceeded (int_max_str_digits E) (length ds)
         then Raise ValueError
         else Ok (decimal_value vs)).
Proof.
  unfold get_minppmm_from_fname.
  destruct (re_search (unicode_decimal_zeros E) (fsdecode fname))
    as [ds|] eqn:Hs.
  - right.
    destruct (re_search_Some _ _ _ Hs) as (pre & post & Hm & Hpost & Hleft).
    destruct (py_int_from_decimal (unicode_decimal_zeros E) 0 ds)
      as (vs & Hvs & Heq); [apply Hm|].
    exists pre, ds, post, vs. split_and!; [done..|].
    unfold py_int. rewrite Heq.
    by destruct (int_limit_exceeded _ _).
  - left. split; [by apply re_search_None|done].
Qed.

Lemma get_minppmm_from_fname_nonneg (E : externals) (fname : string) (n : Z) :
  get_minppmm_from_fname E fname = Ok n → 0 ≤ n.
Proof.
  destruct (get_minppmm_from_fname_cases E fname)
    as [[_ ->]|(pre & ds & post & vs & _ & _ & _ & Hvs & ->)]; [done|].
  destruct (int_limit_exceeded _ _); [done|]. intros [= <-].
  by eapply decimal_value_nonneg.
Qed.

(** C4, as stated, fails on a digit group that [int] refuses: the name
    has a match of [minppmm<digits>], with 4301 digits, and the parser
    raises. *)
Lemma C4_counterexample :
  has_match (unicode_decimal_zeros demo) (fsdecode long_threshold_name) ∧
  get_minppmm_from_fname demo long_threshold_name = Raise ValueError.
Proof.
  split; [|vm_compute; reflexivity].
  exists [], (replicate 4301 49%N), (fsdecode ".csv").
  split; [vm_compute; reflexivity|]. split; [done|].
  apply all_digits_spec. vm_compute. reflexivity.
Qed.

(** C4. [get_minppmm_from_fname] is total and raises nothing but
    [ValueError].  When the name of the file, as Python decodes it, has
    no match of [minppmm<digits>], it raises.  When it has one, the
    digits taken are those of the leftmost match, as far as they go (a
    digit being a decimal digit of any script); if they are more than
    the limit of [int] allows the call raises, and otherwise it returns
    the integer they write in decimal.  No caller recovers from the
    exception: [process_plumes] propagates it before it reads the file,
    and so does [main], which only handles [OSError], so the run leaves
    the files as they were. *)
Theorem C4_get_minppmm_from_fname (E : externals) (fname : string) :
  (¬ has_match (unicode_decimal_zeros E) (fsdecode fname) →
   get_minppmm_from_fname E fname = Raise ValueError) ∧
  (has_match (unicode_decimal_zeros E) (fsdecode fname) →
   ∃ pre ds post vs,
     regex_match (unicode_decimal_zeros E) (fsdecode fname) pre ds post ∧
     digits_end (unicode_decimal_zeros E) post ∧
     (∀ pre' ds' post',
        regex_match (unicode_decimal_zeros E) (fsdecode fname) pre' ds' post' →
        (length pre ≤ length pre')%nat) ∧
     Forall2 (digit_of (unicode_decimal_zeros E)) ds vs ∧
     get_minppmm_from_fname E fname
     = if int_limit_exceeded (int_max_str_digits E) (length ds)
       then Raise ValueError
       else Ok (decimal_value vs)) ∧
  (∀ e, get_minppmm_from_fname E fname = Raise e → e = ValueError) ∧
  (get_minppmm_from_fname E fname = Raise ValueError →
   ∀ flist winds_dir fill key logger out_fname w,
     (process_plumes E (fname :: flist) winds_dir fill key logger w).1
       = Raise ValueError ∧
     files (process_plumes E (fname :: flist) winds_dir fill key logger w).2
       = files w ∧
     (main E (Some fname) winds_dir out_fname w).1 = Raise ValueError ∧
     files (main E (Some fname) winds_dir out_fname w).2 = files w).
Proof.
  split_and!.
  - intros Hno.
    destruct (get_minppmm_from_fname_cases E fname)
      as [[_ ->]|(pre & ds & post & vs & Hm & _)]; [done|].
    destruct Hno. by exists pre, ds, post.
  - intros Hhas.
    destruct (get_minppmm_from_fname_cases E fname) as [[Hno _]|H]; done.
  - intros e.
    destruct (get_minppmm_from_fname_cases E fname)
      as [[_ ->]|(pre & ds & post & vs & _ & _ & _ & _ & ->)].
    + by intros [= <-].
    + destruct (int_limit_exceeded _ _); [by intros [= <-]|done].
  - intros Hraise flist winds_dir fill key logger out_fname w.
    unfold main, try_except_OSError, process_plumes, read_plume_file.
    unfold mbind, M_bind at 1 3 5 7. simpl.
    rewrite Hraise.
    destruct logger; simpl; done.
Qed.

(** ** Sorting *)

Section sort_by_facts.
Context {A K : Type} (lt : K → K → bool) (key : A → K).

Local Abbreviation key_le := (key_le lt key).

Lemma insert_by_Permutation x l : insert_by lt key x l ≡ₚ x :: l.
Proof.
  induction l as [|y ys IH]; simpl; [done|].
  destruct (lt (key y) (key x)); [|done].
  rewrite IH. apply Permutation_swap.
Qed.

Lemma sort_by_Permutation l : sort_by lt key l ≡ₚ l.
Proof.
  induction l as [|x xs IH]; simpl; [done|].
  by rewrite insert_by_Permutation, IH.
Qed.

Hypothesis lt_asym : ∀ a b, lt a b = true → lt b a = false.

Lemma lt_irrefl a : lt a a = false.
Proof. destruct (lt a a) eqn:H; [|done]. by rewrite (lt_asym _ _ H) in H. Qed.

Lemma insert_by_HdRel z x l :
  key_le z x → HdRel key_le z l → HdRel key_le z (insert_by lt key x l).
Proof.
  intros Hzx Hzl. destruct l as [|y ys]; simpl; [by constructor|].
  destruct (lt (key y) (key x)); constructor; [|done].
  by inversion Hzl.
Qed.

Lemma insert_by_Sorted x l :
  Sorted key_le l → Sorted key_le (insert_by lt key x l).
Proof.
  induction 1 as [|y ys Hs IH Hhd]; simpl; [by repeat constructor|].
  destruct (lt (key y) (key x)) eqn:Hlt.
  - constructor; [done|]. apply insert_by_HdRel; [|done].
    by apply lt_asym.
  - constructor; [by constructor|]. by constructor.
Qed.

Lemma sort_by_Sorted l : Sorted key_le (sort_by lt key l).
Proof. induction l; simpl; [constructor|by apply insert_by_Sorted]. Qed.

Context `{!EqDecision K}.

Lemma insert_by_filter k x l :
  filter (λ a, key a = k) (insert_by lt key x l)
  = filter (λ a, key a = k) (x :: l).
Proof.
  induction l as [|y ys IH]; simpl; [done|].
  destruct (lt (key y) (key x)) eqn:Hlt; [|done].
  rewrite filter_cons, IH, !filter_cons.
  destruct (decide (key y = k)) as [Hy|]; [|done].
  destruct (decide (key x = k)) as [Hx|]; [|done].
  rewrite Hy, Hx, lt_irrefl in Hlt. done.
Qed.

(** The sort is stable: the records with a given key come out in the
    order they came in. *)
Lemma sort_by_stable k l :
  filter (λ a, key a = k) (sort_by lt key l) = filter (λ a, key a = k) l.
Proof.
  induction l as [|x xs IH]; simpl; [done|].
  by rewrite insert_by_filter, !filter_cons, IH.
Qed.

Hypothesis lt_trans : ∀ a b c, lt a b = true → lt b c = true → lt a c = true.
Hypothesis lt_total : ∀ a b, lt a b = false → lt b a = false → a = b.

Lemma key_le_trans a b c : key_le a b → key_le b c → key_le a c.
Proof.
  unfold key_le. intros Hab Hbc.
  destruct (lt (key c) (key a)) eqn:Hca; [|done].
  destruct (lt (key a) (key b)) eqn:Hab'.
  - by rewrite (lt_trans _ _ _ Hca Hab') in Hbc.
  - rewrite <- (lt_total _ _ Hab Hab') in Hca. by rewrite Hca in Hbc.
Qed.

#[local] Instance key_le_Transitive : Transitive key_le.
Proof. intros a b c. apply key_le_trans. Qed.

(** A sorted, stable rearrangement of a list is unique: whatever stable
    sorting algorithm runs, it returns [sort_by]. *)
Lemma stable_sorted_unique l1 l2 :
  l1 ≡ₚ l2 → Sorted key_le l1 → Sorted key_le l2 →
  (∀ k, filter (λ a, key a = k) l1 = filter (λ a, key a = k) l2) →
  l1 = l2.
Proof.
  revert l2. induction l1 as [|a l1 IH]; intros l2 Hp Hs1 Hs2 Hf.
  - by apply Permutation_nil_l in Hp.
  - destruct l2 as [|b l2]; [by apply Permutation_nil_r in Hp|].
    apply Sorted_StronglySorted in Hs1, Hs2; [|apply _..].
    apply StronglySorted_inv in Hs1 as [Hs1 Ha], Hs2 as [Hs2 Hb].
    assert (key a = key b) as Hk.
    { apply lt_total.
      - assert (a ∈ b :: l2) as [->|Hin]%elem_of_cons
          by (rewrite <- Hp; left); [apply lt_irrefl|].
        rewrite Forall_forall in Hb. by apply Hb.
      - assert (b ∈ a :: l1) as [->|Hin]%elem_of_cons
          by (rewrite Hp; left); [apply lt_irrefl|].
        rewrite Forall_forall in Ha. by apply Ha. }
    pose proof (Hf (key a)) as Hfa. rewrite !filter_cons in Hfa.
    rewrite decide_True in Hfa by done. rewrite decide_True in Hfa by done.
    injection Hfa as -> Hfa. f_equal.
    apply IH.
    + by apply Permutation_cons_inv in Hp.
    + by apply StronglySorted_Sorted.
    + by apply StronglySorted_Sorted.
    + intros k. specialize (Hf k). rewrite !filter_cons in Hf.
      destruct (decide (key b = k)); [by injection Hf|done].
Qed.

Lemma sort_by_unique l l' :
  l' ≡ₚ l → Sorted key_le l' →
  (∀ k, filter (λ a, key a = k) l' = filter (λ a, key a = k) l) →
  l' = sort_by lt key l.
Proof.
  intros Hp Hs Hf. apply stable_sorted_unique.
  - by rewrite sort_by_Permutation.
  - done.
  - apply sort_by_Sorted.
  - intros k. by rewrite sort_by_stable.
Qed.

(** Two enumerations of the same collection sort to the same list when
    elements with equal keys are equal. *)
Lemma sort_by_Permutation_eq l1 l2 :
  (∀ a b, key a = key b → a = b) →
  l1 ≡ₚ l2 → sort_by lt key l1 = sort_by lt key l2.
Proof.
  intros Hinj Hp.
  assert (AntiSymm (=) key_le) as Hanti.
  { intros a b Hab Hba. apply Hinj. by apply lt_total. }
  apply (Sorted_unique key_le).
  - apply sort_by_Sorted.
  - apply sort_by_Sorted.
  - by rewrite !sort_by_Permutation.
Qed.
End sort_by_facts.

(** The order on strings. *)
Lemma string_compare_refl s : String.compare s s = Eq.
Proof.
  induction s as [|c s IH]; simpl; [done|].
  unfold Ascii.compare. by rewrite N.compare_refl.
Qed.

Lemma string_ltb_asym a b : String.ltb a b = true → String.ltb b a = false.
Proof.
  unfold String.ltb. rewrite (String.compare_antisym a b).
  by destruct (String.compare b a).
Qed.

Lemma string_ltb_total a b :
  String.ltb a b = false → String.ltb b a = false → a = b.
Proof.
  unfold String.ltb. rewrite (String.compare_antisym b a).
  destruct (String.compare a b) eqn:H; simpl; try done.
  intros _ _. by apply String.compare_eq_iff.
Qed.

Lemma string_compare_trans a b c :
  String.compare a b = Lt → String.compare b c = Lt → String.compare a c = Lt.
Proof.
  revert b c. induction a as [|x a IH]; intros [|y b] [|z c]; simpl; try done.
  unfold Ascii.compare.
  destruct (N_of_ascii x ?= N_of_ascii y)%N eqn:Exy; [| |done].
  - apply N.compare_eq_iff in Exy. rewrite Exy.
    destruct (N_of_ascii y ?= N_of_ascii z)%N; [apply IH|done..].
  - intros _. destruct (N_of_ascii y ?= N_of_ascii z)%N eqn:Eyz; [| |done].
    + apply N.compare_eq_iff in Eyz. rewrite <- Eyz, Exy. done.
    + intros _. apply N.compare_lt_iff in Exy, Eyz.
      assert ((N_of_ascii x ?= N_of_ascii z)%N = Lt) as ->; [|done].
      apply N.compare_lt_iff. by apply N.lt_trans with (N_of_ascii y).
Qed.

Lemma string_ltb_trans a b c :
  String.ltb a b = true → String.ltb b c = true → String.ltb a c = true.
Proof.
  unfold String.ltb. intros Hab Hbc.
  rewrite (string_compare_trans a b c); [done| |].
  - by destruct (String.compare a b).
  - by destruct (String.compare b c).
Qed.

Lemma Z_ltb_asym (a b : Z) : Z.ltb a b = true → Z.ltb b a = false.
Proof. lia. Qed.

Lemma Z_ltb_total (a b : Z) : Z.ltb a b = false → Z.ltb b a = false → a = b.
Proof. lia. Qed.

Lemma Z_ltb_trans (a b c : Z) :
  Z.ltb a b = true → Z.ltb b c = true → Z.ltb a c = true.
Proof. lia. Qed.

(** [sorted] does not depend on the order in which a directory or a set
    of altitudes is enumerated. *)
Lemma sorted_str_Permutation l1 l2 : l1 ≡ₚ l2 → sorted_str l1 = sorted_str l2.
Proof.
  intros Hp. unfold sorted_str.
  apply (sort_by_Permutation_eq String.ltb id string_ltb_asym
           string_ltb_trans string_ltb_total); [by intros a b|done].
Qed.

Lemma sorted_Z_Permutation l1 l2 : l1 ≡ₚ l2 → sorted_Z l1 = sorted_Z l2.
Proof.
  intros Hp. unfold sorted_Z.
  apply (sort_by_Permutation_eq Z.ltb id Z_ltb_asym Z_ltb_trans Z_ltb_total);
    [by intros a b|done].
Qed.

(** ** Dictionaries *)

Lemma dict_get_set_eq k v d : dict_get k (dict_set k v d) = Some v.
Proof.
  induction d as [|[k' v'] d IH]; simpl.
  - by rewrite decide_True.
  - destruct (decide (k' = k)) as [->|Hne]; simpl.
    + by rewrite decide_True.
    + by rewrite decide_False.
Qed.

Lemma dict_get_set_ne k k' v d :
  k ≠ k' → dict_get k' (dict_set k v d) = dict_get k' d.
Proof.
  intros Hne. induction d as [|[k0 v0] d IH]; simpl.
  - by rewrite decide_False.
  - destruct (decide (k0 = k)) as [->|Hne0]; simpl.
    + by rewrite !decide_False.
    + by rewrite IH.
Qed.

Lemma dict_keys_set k v d k' :
  k' ∈ dict_keys (dict_set k v d) ↔ k' = k ∨ k' ∈ dict_keys d.
Proof.
  unfold dict_keys. induction d as [|[k0 v0] d IH]; simpl.
  - rewrite list_elem_of_singleton, elem_of_nil. tauto.
  - destruct (decide (k0 = k)) as [->|Hne]; simpl.
    + rewrite !elem_of_cons. tauto.
    + rewrite !elem_of_cons, IH. tauto.
Qed.

(** [dict(zip(ks, [f(k) for k in ks]))] holds [f k] under each [k]. *)
Lemma dict_update_keyed_get (f : pykey → pyval) ks d k :
  dict_get k (dict_update d ((λ k, (k, f k)) <$> ks))
  = if decide (k ∈ ks) then Some (f k) else dict_get k d.
Proof.
  unfold dict_update. revert d. induction ks as [|k0 ks IH]; intros d.
  - case_decide as Hin; [by apply elem_of_nil in Hin|done].
  - change (dict_get k (foldl (λ acc kv, dict_set kv.1 kv.2 acc)
                         (dict_set k0 (f k0) d) ((λ k, (k, f k)) <$> ks))
            = if decide (k ∈ k0 :: ks) then Some (f k) else dict_get k d).
    rewrite IH. destruct (decide (k ∈ ks)) as [Hin|Hnin].
    + rewrite decide_True; [done|by right].
    + destruct (decide (k0 = k)) as [->|Hne].
      * rewrite decide_True by left. apply dict_get_set_eq.
      * rewrite decide_False; [by apply dict_get_set_ne|].
        intros [->|?]%elem_of_cons; done.
Qed.

Lemma dict_update_keyed_keys (f : pykey → pyval) ks d k :
  k ∈ dict_keys (dict_update d ((λ k, (k, f k)) <$> ks)) →
  k ∈ ks ∨ k ∈ dict_keys d.
Proof.
  unfold dict_update. revert d. induction ks as [|k0 ks IH]; intros d; simpl.
  - auto.
  - intros [Hin|Hin]%IH; [left; by right|].
    apply dict_keys_set in Hin as [->|Hin]; [left; left|by right].
Qed.

Lemma zip_keyed (f : pykey → pyval) ks :
  zip ks (f <$> ks) = (λ k, (k, f k)) <$> ks.
Proof. induction ks; simpl; [done|by f_equal]. Qed.

(** The header row: the field names themselves. *)
Lemma dict_to_list_header fieldnames :
  dict_to_list fieldnames (dict_zip fieldnames (key_as_value <$> fieldnames))
  = Ok (key_as_value <$> fieldnames).
Proof.
  unfold dict_to_list, dict_zip. rewrite zip_keyed.
  rewrite (proj2 (forallb_forall _ _)).
  - f_equal. apply list_fmap_ext. intros i k Hk.
    rewrite dict_update_keyed_get, decide_True; [done|].
    by eapply list_elem_of_lookup_2.
  - intros k Hin%list_elem_of_In. apply bool_decide_eq_true.
    apply dict_update_keyed_keys in Hin as [?|Hin]; [done|].
    by apply elem_of_nil in Hin.
Qed.

(** ** Strings *)

Lemma string_app_cons (x : ascii) (a b : string) :
  String x a +:+ b = String x (a +:+ b).
Proof. done. Qed.

Lemma string_app_assoc (a b c : string) : (a +:+ b) +:+ c = a +:+ b +:+ c.
Proof.
  induction a as [|x a IH]; [done|]. by rewrite !string_app_cons, IH.
Qed.

Lemma string_app_nil_r (a : string) : a +:+ "" = a.
Proof. induction a as [|x a IH]; [done|]. by rewrite string_app_cons, IH. Qed.

Lemma string_app_length (a b : string) :
  String.length (a +:+ b) = (String.length a + String.length b)%nat.
Proof.
  induction a as [|x a IH]; [done|]. rewrite string_app_cons. simpl.
  by rewrite IH.
Qed.

(** The backup file is never the output file. *)
Lemma bak_ne (fname : string) : fname +:+ ".bak" ≠ fname.
Proof.
  intros H. apply (f_equal String.length) in H.
  rewrite string_app_length in H. simpl in H. lia.
Qed.

(** ** Running [insert_plumes_in_file] *)

Lemma bind_run {A B} (m : M A) (f : A → M B) w :
  (m ≫= f) w = match m w with
               | (Ok a, w') => f a w'
               | (Raise e, w') => (Raise e, w')
               end.
Proof. done. Qed.

(** Run the next steps of a computation. *)
Ltac mrun := repeat (rewrite bind_run; simpl).

(** The loop over the records: the records that fit the header are
    appended to the file, each of the others is logged, none stops the
    loop. *)
Lemma write_rows_run E fname fieldnames logger plumes f d t l s text :
  f !! fname = Some text →
  for_each (λ plume,
      try_except (DictWriter_writerow E fname fieldnames plume)
        (log_if logger WARNING (MsgCouldNotWrite plume);;
         log_if logger WARNING (MsgCheckFields fname)))
    plumes (World f d t l s)
  = (Ok tt,
     World (<[fname := text +:+ string_concat (rows_written E fieldnames plumes)]> f)
       d (t ++ (EvWrite fname <$> rows_written E fieldnames plumes))
       (l ++ skip_warnings logger fname fieldnames plumes) s).
Proof.
  revert f t l text. induction plumes as [|p ps IH]; intros f t l text Hf.
  - unfold rows_written, skip_warnings. simpl.
    rewrite string_app_nil_r, insert_id, !app_nil_r by done.
    by destruct logger; rewrite ?app_nil_r.
  - simpl. rewrite bind_run. unfold try_except, DictWriter_writerow.
    rewrite bind_run. unfold lift, dict_to_list, rows_written, skip_warnings.
    fold (fits fieldnames p). destruct (fits fieldnames p) eqn:Hfit.
    + unfold write_file, set_file, record_event. simpl. rewrite Hf. simpl.
      erewrite IH by apply lookup_insert_eq.
      rewrite insert_insert_eq.
      rewrite filter_cons_True by by rewrite Hfit.
      rewrite (filter_cons_False (λ d, ¬ fits fieldnames d))
        by (rewrite Hfit; intros H; by apply H).
      simpl. rewrite string_app_assoc, <- app_assoc. reflexivity.
    + rewrite filter_cons_False by (rewrite Hfit; intros []).
      rewrite (filter_cons_True (λ d, ¬ fits fieldnames d))
        by (rewrite Hfit; intros []).
      destruct logger; simpl.
      * erewrite IH by done. rewrite <- !app_assoc. reflexivity.
      * erewrite IH by done. reflexivity.
Qed.

(** [sorted] rearranges. *)
Lemma insert_decorated_Permutation {A} (x : pyval * A) l r :
  insert_decorated x l = Ok r → r ≡ₚ x :: l.
Proof.
  revert r. induction l as [|y ys IH]; intros r; simpl.
  - by intros [= <-].
  - destruct (py_lt y.1 x.1) as [[]|]; simpl; [|by intros [= <-]|done].
    destruct (insert_decorated x ys) as [r'|]; simpl; [|done].
    intros [= <-]. rewrite (IH r') by done. apply Permutation_swap.
Qed.

Lemma sort_decorated_Permutation {A} (l r : list (pyval * A)) :
  sort_decorated l = Ok r → r ≡ₚ l.
Proof.
  revert r. induction l as [|x xs IH]; intros r; simpl.
  - by intros [= <-].
  - destruct (sort_decorated xs) as [s|]; simpl; [|done].
    intros Hr%insert_decorated_Permutation. by rewrite Hr, (IH s).
Qed.

Lemma result_map_length {A B} (f : A → result B) l ys :
  result_map f l = Ok ys → length ys = length l.
Proof.
  revert ys. induction l as [|x xs IH]; intros ys; simpl.
  - by intros [= <-].
  - destruct (f x); simpl; [|done].
    destruct (result_map f xs) as [ys'|]; simpl; [|done].
    intros [= <-]. simpl. by rewrite (IH ys').
Qed.

Lemma sorted_Permutation {A} (l r : list A) key :
  sorted l key = Ok r → r ≡ₚ l.
Proof.
  unfold sorted. destruct (result_map key l) as [ks|] eqn:Hks; simpl; [|done].
  destruct (sort_decorated (zip ks l)) as [d|] eqn:Hd; simpl; [|done].
  intros [= <-]. apply sort_decorated_Permutation in Hd. rewrite Hd.
  rewrite snd_zip; [done|]. apply result_map_length in Hks. lia.
Qed.

Lemma sort_step_Permutation k l all : sort_step k l = Ok all → all ≡ₚ l.
Proof.
  unfold sort_step. destruct k as [key|]; [|by intros [= <-]].
  destruct l as [|first l']; [done|].
  destruct (dict_contains (KStr key) first); [|by intros [= <-]].
  apply sorted_Permutation.
Qed.

Lemma insert_plumes_tail_run E fname sort_by_key logger combined wb :
  combined ≠ [] →
  insert_plumes_tail E fname sort_by_key logger combined wb
  = match sort_step sort_by_key combined with
    | Raise e => (Raise e, wb)
    | Ok all =>
        if can_open_for_writing wb fname
        then (Ok tt, written_world E fname sort_by_key logger combined all wb)
        else (Raise OSError,
              refused_world fname sort_by_key logger combined wb)
    end.
Proof.
  intros Hne. destruct wb as [f d t l s]. unfold insert_plumes_tail.
  rewrite bind_run.
  assert (∃ lw,
    match sort_by_key with
    | Some key =>
        first ← lift (list_first combined);
        if dict_contains (KStr key) first
        then lift (sorted combined (dict_getitem (KStr key)))
        else
          log_if logger WARNING (MsgSortKeyNotFound key);;
          log_if logger WARNING MsgLeftUnsorted;;
          mret combined
    | None => mret combined
    end (World f d t l s)
    = (sort_step sort_by_key combined, World f d t lw s) ∧
    (is_Ok (sort_step sort_by_key combined) →
     lw = (l ++ sort_warnings logger sort_by_key combined)%list) ∧
    (¬ is_Ok (sort_step sort_by_key combined) → lw = l)) as (lw & -> & Hlw1 & Hlw2).
  { unfold sort_step, sort_warnings.
    destruct combined as [|first rest]; [done|].
    destruct sort_by_key as [key|]; simpl.
    - rewrite bind_run. simpl.
      destruct (dict_contains (KStr key) first) eqn:Hc.
      + unfold lift. exists l. split; [done|].
        destruct logger; rewrite ?app_nil_r; done.
      + destruct logger; simpl.
        * exists (l ++ [(WARNING, MsgSortKeyNotFound key);
                        (WARNING, MsgLeftUnsorted)])%list.
          split; [mrun; by rewrite <- app_assoc|].
          split; [done|].
          intros H. exfalso. apply H. by eexists.
        * exists l. split; [by mrun|]. by rewrite app_nil_r.
    - exists l. split; [done|]. split; [|done].
      by destruct logger; rewrite ?app_nil_r. }
  destruct (sort_step sort_by_key combined) as [all|e] eqn:Hsort.
  2:{ rewrite Hlw2; [done|]. by intros [? ?]. }
  rewrite Hlw1 by by eexists. clear Hlw1 Hlw2 lw.
  assert (all ≠ []) as Hall.
  { apply sort_step_Permutation in Hsort. intros ->.
    by apply Permutation_nil_l in Hsort. }
  destruct all as [|first rest]; [done|].
  rewrite bind_run. unfold lift at 1, list_first. cbv beta iota zeta.
  set (loop := for_each _ (first :: rest)).
  rewrite bind_run. unfold open_write at 1.
  change (can_open_for_writing
            (World f d t (l ++ sort_warnings logger sort_by_key combined) s)
            fname)
    with (can_open_for_writing (World f d t l s) fname).
  destruct (can_open_for_writing (World f d t l s) fname); [|done].
  unfold DictWriter_writeheader, DictWriter_writerow. mrun.
  rewrite dict_to_list_header. simpl. rewrite lookup_insert_eq. simpl.
  unfold set_file, record_event. simpl. rewrite bind_run.
  subst loop. erewrite write_rows_run by apply lookup_insert_eq.
  unfold written_world, table_text. simpl.
  rewrite !insert_insert_eq.
  destruct logger; simpl; rewrite <- ?app_assoc, ?app_nil_r; reflexivity.
Qed.

(** Whether the output file can be opened is not changed by the backup,
    and a file that exists can be opened. *)
Lemma can_open_existing w fname :
  is_Some (files w !! fname) → can_open_for_writing w fname = true.
Proof.
  intros H. unfold can_open_for_writing.
  by rewrite bool_decide_eq_true_2.
Qed.

Lemma can_open_backup_world fname logger w :
  can_open_for_writing (backup_world fname logger w) fname
  = can_open_for_writing w fname.
Proof.
  unfold backup_world. destruct (files w !! fname) as [text|] eqn:Hf.
  - rewrite (can_open_existing w) by by rewrite Hf.
    apply can_open_existing. simpl.
    rewrite lookup_insert_ne by apply bak_ne. by rewrite Hf.
  - reflexivity.
Qed.

Lemma insert_plumes_in_file_run E plumes fname sort_by_key logger w :
  plumes ≠ [] →
  insert_plumes_in_file E plumes fname sort_by_key logger w
  = insert_outcome E plumes fname sort_by_key logger w.
Proof.
  intros Hne. destruct w as [f d t l s].
  unfold insert_outcome, existing_records, backup_world.
  destruct plumes as [|p ps]; [done|]. clear Hne.
  change (insert_plumes_in_file E (p :: ps) fname sort_by_key logger)
    with (isfile ← os_path_isfile fname;
          (if isfile : bool then
              text ← read_file fname;
              rows ← lift (csv_reader E false text);
              let plumes := (DictReader_rows rows ++ p :: ps)%list in
              let fname_bak := fname +:+ ".bak" in
              copyfile fname fname_bak;;
              log_if logger CRITICAL (MsgBackedUp fname_bak);;
              mret plumes
            else mret (p :: ps))
          ≫= insert_plumes_tail E fname sort_by_key logger).
  rewrite bind_run. unfold os_path_isfile at 1. simpl.
  destruct (f !! fname) as [text|] eqn:Hf.
  - rewrite bool_decide_eq_true_2 by eauto.
    rewrite !bind_run. unfold read_file at 1. simpl. rewrite Hf.
    unfold lift at 1. simpl.
    destruct (csv_reader E false text) as [rows|e]; simpl.
    + rewrite bind_run. cbv beta iota. rewrite bind_run.
      unfold copyfile, record_event, set_file. simpl. rewrite Hf.
      rewrite (can_open_existing (World f d t l s)) by (simpl; eauto).
      destruct logger; mrun;
        (rewrite insert_plumes_tail_run by by destruct (DictReader_rows rows));
        (rewrite can_open_existing
           by (simpl; rewrite lookup_insert_ne by apply bak_ne; eauto));
        rewrite <- ?app_assoc, ?app_nil_r; reflexivity.
    + unfold record_event. simpl. rewrite <- app_assoc. reflexivity.
  - rewrite bool_decide_eq_false_2 by (by intros [? ?]).
    rewrite bind_run. simpl.
    rewrite insert_plumes_tail_run by done. reflexivity.
Qed.

(** ** [sorted] on string keys *)

Section sorted_on_strings.
Context {A : Type} (key : A → result pyval) (skey : A → string).

Local Abbreviation dec := (decorate skey).

Lemma insert_decorated_str x s :
  insert_decorated (dec x) (dec <$> s)
  = Ok (dec <$> insert_by String.ltb skey x s).
Proof.
  induction s as [|y ys IH]; simpl; [done|].
  destruct (String.ltb (skey y) (skey x)); simpl; [|done].
  unfold fmap in IH. by rewrite IH.
Qed.

Lemma sort_decorated_str l :
  sort_decorated (dec <$> l) = Ok (dec <$> sort_by String.ltb skey l).
Proof.
  induction l as [|x xs IH]; simpl; [done|].
  unfold fmap in IH. rewrite IH. simpl. apply insert_decorated_str.
Qed.

Lemma result_map_str l :
  (∀ a, a ∈ l → key a = Ok (PStr (skey a))) →
  result_map key l = Ok ((λ a, PStr (skey a)) <$> l).
Proof.
  induction l as [|x xs IH]; intros H; simpl; [done|].
  rewrite (H x) by left. simpl. unfold fmap in IH. rewrite IH; [done|].
  intros a Ha. apply H. by right.
Qed.

(** On keys that are all strings, [sorted] is the stable sort by the
    order of strings. *)
Lemma sorted_str_keys l :
  (∀ a, a ∈ l → key a = Ok (PStr (skey a))) →
  sorted l key = Ok (sort_by String.ltb skey l).
Proof.
  intros H. unfold sorted. rewrite (result_map_str l H). simpl.
  assert (zip ((λ a, PStr (skey a)) <$> l) l = dec <$> l) as ->.
  { clear H. induction l; simpl; [done|by f_equal]. }
  rewrite sort_decorated_str. simpl. f_equal.
  rewrite <- list_fmap_compose. apply list_fmap_id.
Qed.
End sorted_on_strings.

Lemma sorted_all_str_keys k l :
  all_str_keys k l →
  sorted l (dict_getitem k) = Ok (sort_by String.ltb (str_key k) l).
Proof.
  intros H. apply sorted_str_keys. intros d Hd.
  destruct (H d Hd) as [s Hs]. unfold dict_getitem, str_key. by rewrite Hs.
Qed.

Lemma sort_by_stably_sorted k l :
  stably_sorted_by k l (sort_by String.ltb (str_key k) l).
Proof.
  split; [apply sort_by_Permutation|]. split.
  - apply sort_by_Sorted, string_ltb_asym.
  - intros s. apply sort_by_stable, string_ltb_asym.
Qed.

(** A list has one stable sort. *)
Lemma stably_sorted_by_unique k l l1 l2 :
  stably_sorted_by k l l1 → stably_sorted_by k l l2 → l1 = l2.
Proof.
  intros (Hp1 & Hs1 & Hf1) (Hp2 & Hs2 & Hf2).
  apply (stable_sorted_unique String.ltb (str_key k) string_ltb_asym
           string_ltb_trans string_ltb_total); [|done|done|].
  - by rewrite Hp1, Hp2.
  - intros s. by rewrite Hf1, Hf2.
Qed.

Lemma fits_spec fieldnames d :
  fits fieldnames d = true ↔ ∀ k, k ∈ dict_keys d → k ∈ fieldnames.
Proof.
  unfold fits. rewrite forallb_forall. split.
  - intros H k Hk. apply list_elem_of_In, H in Hk.
    by apply bool_decide_eq_true in Hk.
  - intros H k Hk. apply bool_decide_eq_true, H. by apply list_elem_of_In.
Qed.

(** ** The writer *)

(** C7. Called with an empty list, [insert_plumes_in_file] returns
    normally and leaves the world as it was, but for one warning when a
    logger is given: no file is looked for, read, copied or written, so
    the output file is untouched and no backup appears. *)
Theorem C7_empty_list_is_a_no_op (E : externals) (fname : string)
    (sort_by_key : option string) (logger : option Logger) (w : world) :
  insert_plumes_in_file E [] fname sort_by_key logger w
  = (Ok tt,
     World (files w) (dirs w) (trace w)
       (log w ++ match logger with
                 | Some _ => [(WARNING, MsgSkippedEmpty)]
                 | None => []
                 end)
       (stdout w)).
Proof.
  destruct w as [f d t l s]. unfold insert_plumes_in_file. simpl.
  destruct logger; simpl; rewrite ?app_nil_r; reflexivity.
Qed.










(** ** The enrichment of one record *)

Lemma process_plume_subdirs_unknown E winds_dir fill logger subdirs st
    f d t lg s :
  (∀ e, e ∈ subdirs → is_unknown (WindType E e) = true) →
  M_fold (process_plume_subdir E winds_dir fill logger) st subdirs
    (World f d t lg s)
  = (Ok st,
     World f d t
       (lg ++ match logger with
              | Some _ => (λ e, (INFO, MsgProcessingWinds e)) <$> subdirs
              | None => []
              end) s).
Proof.
  revert lg. induction subdirs as [|e es IH]; intros lg Hun.
  - simpl. by destruct logger; rewrite app_nil_r.
  - simpl. rewrite bind_run. unfold process_plume_subdir at 1.
    destruct st as [plume emission_stats]. rewrite bind_run.
    rewrite (Hun e) by left.
    destruct logger; simpl; rewrite IH by (intros; apply Hun; by right).
    + by rewrite <- app_assoc.
    + done.
Qed.

Lemma elem_of_sorted_str e l : e ∈ sorted_str l ↔ e ∈ l.
Proof. unfold sorted_str. by rewrite sort_by_Permutation. Qed.

(** C5. When every entry of the wind root that is not hidden classifies
    as unknown, [process_plume] returns the record it was given, and the
    only effects are the listing of the wind root and the log: no
    statistics are computed.  Hidden entries are not even classified:
    whatever they would classify as, they are not in the loop. *)
Theorem C5_unknown_subdirs (E : externals) (plume : record)
    (winds_dir : string) (fill : pyval) (logger : option Logger)
    (w : world) (entries : list string) :
  dirs w !! winds_dir = Some entries →
  (∀ e, e ∈ entries → startswith_dot e = false →
        is_unknown (WindType E e) = true) →
  process_plume E plume winds_dir fill logger w
  = (Ok plume,
     World (files w) (dirs w) (trace w ++ [EvListDir winds_dir])
       (log w ++ match logger with
                 | Some _ =>
                     [(WARNING, MsgProcessingPlume plume);
                      (INFO, MsgPlume plume)]
                     ++ ((λ e, (INFO, MsgProcessingWinds e))
                         <$> sorted_str
                               (filter (λ f, negb (startswith_dot f)) entries))
                     ++ [(INFO, MsgComputedPlume plume)]
                 | None => []
                 end)
       (stdout w)).
Proof.
  intros Hdir Hun. destruct w as [f d t lg s]. simpl in Hdir.
  unfold process_plume.
  assert (∀ e, e ∈ sorted_str (filter (λ f, negb (startswith_dot f)) entries)
               → is_unknown (WindType E e) = true) as Hun'.
  { intros e [He1 He2]%elem_of_sorted_str%list_elem_of_filter.
    apply Hun; [done|]. by destruct (startswith_dot e). }
  destruct logger; mrun; unfold os_listdir, record_event; simpl;
    rewrite Hdir; mrun;
    rewrite process_plume_subdirs_unknown by done; mrun.
  - rewrite <- !app_assoc. reflexivity.
  - rewrite !app_nil_r. reflexivity.
Qed.

Lemma C5_unknown_subdirs_witness :
  (process_plume demo plume_1 "winds" (PInt (-9999)) None
     (World ∅ {["winds" := ["zeta"; ".bulk"; "alpha"]]} [] [] [])).1
  = Ok plume_1.
Proof.
  rewrite (C5_unknown_subdirs demo plume_1 "winds" (PInt (-9999)) None
             (World ∅ {["winds" := ["zeta"; ".bulk"; "alpha"]]} [] [] [])
             ["zeta"; ".bulk"; "alpha"]).
  - reflexivity.
  - vm_compute. reflexivity.
  - intros e He _.
    repeat (apply elem_of_cons in He as [->|He]; [vm_compute; reflexivity|]).
    by apply elem_of_nil in He.
Defined.

(** ** Related runs *)

Section related_runs.
Context (R : world → world → Prop).

Lemma M_rel_ret {A} (a : A) : M_rel R (mret a) (mret a).
Proof. by intros w1 w2 H. Qed.

Lemma M_rel_lift {A} (r : result A) : M_rel R (lift r) (lift r).
Proof. by intros w1 w2 H. Qed.

Lemma M_rel_bind {A B} (m1 m2 : M A) (f1 f2 : A → M B) :
  M_rel R m1 m2 → (∀ a, M_rel R (f1 a) (f2 a)) →
  M_rel R (m1 ≫= f1) (m2 ≫= f2).
Proof.
  intros Hm Hf w1 w2 Hw. rewrite !bind_run.
  destruct (Hm w1 w2 Hw) as [Hr Hw'].
  destruct (m1 w1) as [[a1|e1] w1'], (m2 w2) as [[a2|e2] w2'];
    simpl in *; simplify_eq; [by apply Hf|done].
Qed.

Lemma M_rel_fold {A S} (f1 f2 : S → A → M S) (s : S) (l : list A) :
  (∀ s x, M_rel R (f1 s x) (f2 s x)) →
  M_rel R (M_fold f1 s l) (M_fold f2 s l).
Proof.
  intros Hf. revert s. induction l as [|x xs IH]; intros s; simpl.
  - apply M_rel_ret.
  - apply M_rel_bind; [apply Hf|apply IH].
Qed.

Lemma M_rel_map {A B} (f1 f2 : A → M B) (l : list A) :
  (∀ x, M_rel R (f1 x) (f2 x)) → M_rel R (M_map f1 l) (M_map f2 l).
Proof.
  intros Hf. induction l as [|x xs IH]; simpl.
  - apply M_rel_ret.
  - apply M_rel_bind; [apply Hf|]. intros y.
    apply M_rel_bind; [apply IH|]. intros ys. apply M_rel_ret.
Qed.

Lemma M_rel_for_each {A} (f1 f2 : A → M unit) (l : list A) :
  (∀ x, M_rel R (f1 x) (f2 x)) → M_rel R (for_each f1 l) (for_each f2 l).
Proof.
  intros Hf. induction l as [|x xs IH]; simpl.
  - apply M_rel_ret.
  - apply M_rel_bind; [apply Hf|]. intros _. apply IH.
Qed.

Lemma M_rel_try_except {A} (b1 b2 h1 h2 : M A) :
  M_rel R b1 b2 → M_rel R h1 h2 →
  M_rel R (try_except b1 h1) (try_except b2 h2).
Proof.
  intros Hb Hh w1 w2 Hw. unfold try_except.
  destruct (Hb w1 w2 Hw) as [Hr Hw'].
  destruct (b1 w1) as [[a1|e1] w1'], (b2 w2) as [[a2|e2] w2'];
    simpl in *; simplify_eq; [done|by apply Hh].
Qed.

Lemma M_rel_try_except_OSError {A} (b1 b2 h1 h2 : M A) :
  M_rel R b1 b2 → M_rel R h1 h2 →
  M_rel R (try_except_OSError b1 h1) (try_except_OSError b2 h2).
Proof.
  intros Hb Hh w1 w2 Hw. unfold try_except_OSError.
  destruct (Hb w1 w2 Hw) as [Hr Hw'].
  destruct (b1 w1) as [[a1|e1] w1'], (b2 w2) as [[a2|e2] w2'];
    simpl in *; simplify_eq; [done|].
  destruct e2; try done. by apply Hh.
Qed.
End related_runs.

(** The logger only adds to the log. *)
Lemma log_if_same_but_log lg1 lg2 lvl1 lvl2 msg1 msg2 :
  M_rel same_but_log (log_if lg1 lvl1 msg1) (log_if lg2 lvl2 msg2).
Proof. intros w1 w2 H. by destruct lg1, lg2. Qed.

Lemma log_if_same_but_dirs lg lvl msg :
  M_rel same_but_dirs (log_if lg lvl msg) (log_if lg lvl msg).
Proof.
  intros w1 w2 (Hf & Ht & Hl & Hs). destruct lg; simpl; [|done].
  unfold same_but_dirs. simpl. by rewrite Hf, Ht, Hl, Hs.
Qed.

(** The file-system calls do not read the log. *)
Lemma os_path_isfile_same_but_log path :
  M_rel same_but_log (os_path_isfile path) (os_path_isfile path).
Proof.
  intros w1 w2 (Hf & Hd & Ht & Hs). unfold os_path_isfile, same_but_log.
  simpl. by rewrite Hf, Hd, Ht, Hs.
Qed.

Lemma os_listdir_same_but_log path :
  M_rel same_but_log (os_listdir path) (os_listdir path).
Proof.
  intros w1 w2 (Hf & Hd & Ht & Hs). unfold os_listdir, same_but_log.
  simpl. by rewrite Hf, Hd, Ht, Hs.
Qed.

Lemma read_file_same_but_log path :
  M_rel same_but_log (read_file path) (read_file path).
Proof.
  intros w1 w2 (Hf & Hd & Ht & Hs). unfold read_file, same_but_log.
  simpl. by rewrite Hf, Hd, Ht, Hs.
Qed.

Lemma copyfile_same_but_log src dst :
  M_rel same_but_log (copyfile src dst) (copyfile src dst).
Proof.
  intros w1 w2 (Hf & Hd & Ht & Hs). unfold copyfile, same_but_log.
  rewrite Hf. destruct (files w2 !! src); simpl; by rewrite ?Hf, Hd, Ht, Hs.
Qed.

Lemma open_write_same_but_log path :
  M_rel same_but_log (open_write path) (open_write path).
Proof.
  intros w1 w2 (Hf & Hd & Ht & Hs). unfold open_write, same_but_log.
  assert (can_open_for_writing w1 path = can_open_for_writing w2 path) as ->.
  { unfold can_open_for_writing. by rewrite Hf, Hd. }
  destruct (can_open_for_writing w2 path); simpl; by rewrite ?Hf, Hd, Ht, Hs.
Qed.

Lemma write_file_same_but_log path data :
  M_rel same_but_log (write_file path data) (write_file path data).
Proof.
  intros w1 w2 (Hf & Hd & Ht & Hs). unfold write_file, same_but_log.
  simpl. by rewrite Hf, Hd, Ht, Hs.
Qed.

Lemma print_same_but_log line :
  M_rel same_but_log (print line) (print line).
Proof.
  intros w1 w2 (Hf & Hd & Ht & Hs). unfold print, same_but_log.
  simpl. by rewrite Hf, Hd, Ht, Hs.
Qed.

Ltac mrel :=
  repeat first
    [ apply M_rel_ret | apply M_rel_lift | apply log_if_same_but_log
    | apply os_path_isfile_same_but_log | apply os_listdir_same_but_log
    | apply read_file_same_but_log | apply copyfile_same_but_log
    | apply open_write_same_but_log | apply write_file_same_but_log
    | apply print_same_but_log
    | apply M_rel_bind; [|intros ?] ].

(** ** The logger is observational *)

Section logger.
Context (E : externals) (Hobs : logger_is_observational E).

Lemma process_plume_alt_logger winds_subdir fill wind_type logger plume alt :
  M_rel same_but_log
    (process_plume_alt E winds_subdir fill wind_type logger plume alt)
    (process_plume_alt E winds_subdir fill wind_type None plume alt).
Proof.
  unfold process_plume_alt. rewrite (proj1 Hobs). mrel.
Qed.

Lemma process_plume_subdir_logger winds_dir fill logger st subdir :
  M_rel same_but_log
    (process_plume_subdir E winds_dir fill logger st subdir)
    (process_plume_subdir E winds_dir fill None st subdir).
Proof.
  unfold process_plume_subdir. destruct st as [plume emission_stats].
  apply M_rel_bind; [mrel|]. intros _.
  destruct (is_unknown (WindType E subdir)); [mrel|].
  apply M_rel_bind.
  - apply M_rel_fold. intros. apply process_plume_alt_logger.
  - intros plume'. rewrite (proj2 Hobs). mrel.
Qed.

Lemma process_plume_logger plume winds_dir fill logger :
  M_rel same_but_log
    (process_plume E plume winds_dir fill logger)
    (process_plume E plume winds_dir fill None).
Proof.
  unfold process_plume. mrel.
  apply M_rel_fold. intros. apply process_plume_subdir_logger.
Qed.

Lemma process_plumes_logger flist winds_dir fill key logger :
  M_rel same_but_log
    (process_plumes E flist winds_dir fill key logger)
    (process_plumes E flist winds_dir fill key None).
Proof.
  unfold process_plumes. mrel.
  - apply M_rel_map. intros fname.
    unfold read_plume_file, dict_reader_plus_update. mrel.
  - apply M_rel_map. intros plume. apply process_plume_logger.
Qed.

Lemma insert_plumes_in_file_logger plumes fname sort_by_key logger :
  M_rel same_but_log
    (insert_plumes_in_file E plumes fname sort_by_key logger)
    (insert_plumes_in_file E plumes fname sort_by_key None).
Proof.
  unfold insert_plumes_in_file.
  destruct (0 <? length plumes)%nat; [|mrel].
  apply M_rel_bind; [mrel|]. intros isfile.
  apply M_rel_bind; [destruct isfile; mrel|]. intros combined.
  apply M_rel_bind.
  { destruct sort_by_key as [key|]; [|mrel].
    apply M_rel_bind; [mrel|]. intros first.
    destruct (dict_contains (KStr key) first); mrel. }
  intros all. apply M_rel_bind; [mrel|]. intros first.
  unfold DictWriter_writeheader, DictWriter_writerow. mrel.
  apply M_rel_for_each. intros plume.
  apply M_rel_try_except; mrel.
Qed.
End logger.

(** C9. Provided the statistics functions make no use of the logger they
    are handed, each core operation returns the same result, or raises
    the same exception, with a logger as without, and leaves the same
    files, directories, file-system trace and standard output: only the
    log differs. *)
Theorem C9_logger_is_observational (E : externals) (logger : option Logger)
    (w : world) :
  logger_is_observational E →
  (∀ plume winds_dir fill,
     let a := process_plume E plume winds_dir fill logger w in
     let b := process_plume E plume winds_dir fill None w in
     a.1 = b.1 ∧ same_but_log a.2 b.2) ∧
  (∀ flist winds_dir fill minppmm_key,
     let a := process_plumes E flist winds_dir fill minppmm_key logger w in
     let b := process_plumes E flist winds_dir fill minppmm_key None w in
     a.1 = b.1 ∧ same_but_log a.2 b.2) ∧
  (∀ plumes fname sort_by_key,
     let a := insert_plumes_in_file E plumes fname sort_by_key logger w in
     let b := insert_plumes_in_file E plumes fname sort_by_key None w in
     a.1 = b.1 ∧ same_but_log a.2 b.2).
Proof.
  intros Hobs. assert (same_but_log w w) as Hw by done.
  split; [|split]; intros; simpl.
  - by apply process_plume_logger.
  - by apply process_plumes_logger.
  - by apply insert_plumes_in_file_logger.
Qed.

Lemma C9_logger_is_observational_witness :
  let a := insert_plumes_in_file demo [plume_1; plume_wide] "out.csv"
             (Some "A") (Some TheLogger) out_world in
  let b := insert_plumes_in_file demo [plume_1; plume_wide] "out.csv"
             (Some "A") None out_world in
  a.1 = b.1 ∧ same_but_log a.2 b.2.
Proof.
  apply (C9_logger_is_observational demo (Some TheLogger) out_world).
  split; reflexivity.
Defined.

(** ** Enrichment does not depend on the order of enumeration *)

Lemma process_plume_run E plume winds_dir fill logger w entries :
  dirs w !! winds_dir = Some entries →
  process_plume E plume winds_dir fill logger w
  = (st ← M_fold (process_plume_subdir E winds_dir fill logger) (plume, [])
            (sorted_str (filter (λ f, negb (startswith_dot f)) entries));
     let plume := dict_update st.1 st.2 in
     log_if logger INFO (MsgComputedPlume plume);;
     mret plume)
    (World (files w) (dirs w) (trace w ++ [EvListDir winds_dir])
       (log w ++ match logger with
                 | Some _ => [(WARNING, MsgProcessingPlume plume);
                              (INFO, MsgPlume plume)]
                 | None => []
                 end)
       (stdout w)).
Proof.
  intros Hdir. destruct w as [f d t lg s]. simpl in Hdir.
  unfold process_plume.
  rewrite bind_run.
  destruct logger; simpl; rewrite bind_run; simpl; rewrite bind_run;
    unfold os_listdir at 1, record_event; simpl; rewrite Hdir;
    rewrite <- ?app_assoc, ?app_nil_r; reflexivity.
Qed.

Section enumeration.
Context (E1 E2 : externals).
Context (Hclass : same_classification E1 E2).
Context (Hws : compute_wind_stats E1 = compute_wind_stats E2).
Context (Her : compute_emission_rate E1 = compute_emission_rate E2).

Lemma process_plume_alt_enumeration winds_subdir fill wind_type logger
    plume alt :
  M_rel same_but_dirs
    (process_plume_alt E1 winds_subdir fill wind_type logger plume alt)
    (process_plume_alt E2 winds_subdir fill wind_type logger plume alt).
Proof.
  unfold process_plume_alt. rewrite Hws.
  apply M_rel_bind; [apply M_rel_lift|]. intros ?. apply M_rel_ret.
Qed.

Lemma process_plume_subdir_enumeration winds_dir fill logger st subdir :
  M_rel same_but_dirs
    (process_plume_subdir E1 winds_dir fill logger st subdir)
    (process_plume_subdir E2 winds_dir fill logger st subdir).
Proof.
  unfold process_plume_subdir. destruct st as [plume emission_stats].
  destruct (Hclass subdir) as (Hun & Hty & Halts).
  rewrite Hun, Hty, (sorted_Z_Permutation _ _ Halts), Her.
  apply M_rel_bind; [apply log_if_same_but_dirs|]. intros _.
  destruct (is_unknown (WindType E2 subdir)); [apply M_rel_ret|].
  apply M_rel_bind.
  - apply M_rel_fold. intros. apply process_plume_alt_enumeration.
  - intros plume'.
    apply M_rel_bind; [apply M_rel_lift|]. intros ?. apply M_rel_ret.
Qed.
End enumeration.

(** C8. [process_plume] is a function of its inputs, and it does not
    depend on what the system leaves open: the order in which the wind
    root lists its entries, and the order in which a wind type yields its
    altitudes.  Two runs on the same record, wind root contents, fill
    value and statistics functions return the same record, or raise the
    same exception, and log the same messages, because both enumerations
    are sorted before use. *)
Theorem C8_enrichment_is_deterministic (E1 E2 : externals) (plume : record)
    (winds_dir : string) (fill : pyval) (logger : option Logger)
    (w1 w2 : world) (entries1 entries2 : list string) :
  same_classification E1 E2 →
  compute_wind_stats E1 = compute_wind_stats E2 →
  compute_emission_rate E1 = compute_emission_rate E2 →
  same_but_dirs w1 w2 →
  dirs w1 !! winds_dir = Some entries1 →
  dirs w2 !! winds_dir = Some entries2 →
  entries1 ≡ₚ entries2 →
  let a := process_plume E1 plume winds_dir fill logger w1 in
  let b := process_plume E2 plume winds_dir fill logger w2 in
  a.1 = b.1 ∧ same_but_dirs a.2 b.2.
Proof.
  intros Hclass Hws Her (Hf & Ht & Hl & Hs) Hd1 Hd2 Hperm. simpl.
  rewrite (process_plume_run E1 _ _ _ _ _ _ Hd1).
  rewrite (process_plume_run E2 _ _ _ _ _ _ Hd2).
  rewrite (sorted_str_Permutation
             (filter (λ f, negb (startswith_dot f)) entries1)
             (filter (λ f, negb (startswith_dot f)) entries2))
    by by rewrite Hperm.
  apply M_rel_bind.
  - apply M_rel_fold. intros. by apply process_plume_subdir_enumeration.
  - intros st.
    apply M_rel_bind; [apply log_if_same_but_dirs|]. intros _. apply M_rel_ret.
  - unfold same_but_dirs. simpl. by rewrite Hf, Ht, Hl, Hs.
Qed.

Lemma C8_enrichment_is_deterministic_witness :
  let a := process_plume demo plume_1 "winds" (PInt (-9999)) None
             winds_world_1 in
  let b := process_plume demo_reordered plume_1 "winds" (PInt (-9999)) None
             winds_world_2 in
  a.1 = b.1 ∧ same_but_dirs a.2 b.2.
Proof.
  apply (C8_enrichment_is_deterministic demo demo_reordered plume_1 "winds"
           (PInt (-9999)) None winds_world_1 winds_world_2
           ["zeta"; ".hidden"; "bulk"] ["bulk"; "zeta"; ".hidden"]).
  - intros subdir. unfold demo, demo_reordered, demo_WindType. simpl.
    destruct (bool_decide (subdir = "bulk")); simpl.
    + split; [done|]. split; [done|]. apply Permutation_swap.
    + split; [done|]. split; [done|]. apply Permutation_refl.
  - reflexivity.
  - reflexivity.
  - done.
  - vm_compute. reflexivity.
  - vm_compute. reflexivity.
  - apply (Permutation_app_comm ["zeta"; ".hidden"] ["bulk"]).
Defined.

(** ** The loader *)

Lemma M_map_length {A B} (f : A → M B) l w ys w' :
  M_map f l w = (Ok ys, w') → length ys = length l.
Proof.
  revert w ys w'. induction l as [|x xs IH]; intros w ys w'; simpl.
  - by intros [= <- _].
  - rewrite bind_run. destruct (f x w) as [[y|e] w1]; [|done].
    rewrite bind_run. destruct (M_map f xs w1) as [[ys'|e] w2] eqn:Hxs; [|done].
    intros [= <- _]. simpl. by rewrite (IH _ _ _ Hxs).
Qed.

Lemma process_plumes_run E flist winds_dir fill key logger w per_file w1 :
  M_map (read_plume_file E key) flist
    (log_if logger INFO (MsgFlist flist) w).2 = (Ok per_file, w1) →
  process_plumes E flist winds_dir fill key logger w
  = (first ← lift (list_first (concat per_file));
     sort_by_key ← lift (list_first (dict_keys first));
     plumes ← lift (sorted (concat per_file) (dict_getitem sort_by_key));
     enrich_plumes E plumes winds_dir fill logger) w1.
Proof.
  intros Hload. unfold process_plumes. rewrite bind_run.
  destruct (log_if logger INFO (MsgFlist flist) w) as [r w0] eqn:Hlog.
  assert (r = Ok tt) as -> by (by destruct logger; injection Hlog as <- _).
  simpl in Hload. rewrite bind_run, Hload. reflexivity.
Qed.

(** Reading files that hold no data row yields no record and leaves the
    files as they were. *)
Lemma read_no_data_rows E key flist w :
  (∀ fname, fname ∈ flist → no_data_rows E (files w) fname) →
  ∃ w', M_map (read_plume_file E key) flist w
        = (Ok ((λ _, []) <$> flist), w') ∧ files w' = files w.
Proof.
  revert w. induction flist as [|fname rest IH]; intros w Hno; simpl.
  - by exists w.
  - destruct (Hno fname) as ([n Hn] & text & rows & Hf & Hrows & Hnone);
      [by left|].
    destruct (IH (record_event (EvOpenRead fname) w)) as (w' & Hrun & Hfiles).
    { intros f Hin. apply Hno. by right. }
    exists w'. split; [|done].
    rewrite bind_run. unfold read_plume_file at 1. rewrite bind_run, Hn.
    unfold lift at 1. simpl. unfold dict_reader_plus_update.
    rewrite bind_run. unfold read_file at 1. rewrite Hf. simpl.
    rewrite bind_run, Hrows. unfold lift at 1. simpl. rewrite Hnone.
    rewrite bind_run, Hrun. reflexivity.
Qed.

(** C10. [process_plumes] never returns an empty list; and when the
    input files (none, or files that can all be read and whose names
    carry a threshold) hold no data row at all, it raises [IndexError],
    at [plumes[0]], with the files left as they were. *)
Theorem C10_empty_load_is_fatal (E : externals) (flist : list string)
    (winds_dir : string) (fill : pyval) (minppmm_key : string)
    (logger : option Logger) (w : world) :
  (process_plumes E flist winds_dir fill minppmm_key logger w).1 ≠ Ok [] ∧
  ((∀ fname, fname ∈ flist → no_data_rows E (files w) fname) →
   (process_plumes E flist winds_dir fill minppmm_key logger w).1
     = Raise IndexError ∧
   files (process_plumes E flist winds_dir fill minppmm_key logger w).2
     = files w).
Proof.
  split.
  - destruct (M_map (read_plume_file E minppmm_key) flist
                (log_if logger INFO (MsgFlist flist) w).2)
      as [[per_file|e] w1] eqn:Hload.
    + rewrite (process_plumes_run _ _ _ _ _ _ _ _ _ Hload).
      rewrite bind_run. unfold lift at 1.
      destruct (concat per_file) as [|first rest] eqn:Hcat; [done|]. simpl.
      rewrite bind_run. unfold lift at 1.
      destruct (list_first (dict_keys first)) as [k|]; [|done].
      rewrite bind_run. unfold lift at 1.
      destruct (sorted (first :: rest) (dict_getitem k)) as [all|] eqn:Hs;
        [|done].
      apply sorted_Permutation, Permutation_length in Hs.
      unfold enrich_plumes. rewrite bind_run.
      destruct (log_if logger INFO (MsgPlumes all) w1) as [[[]|] w2]; [|done].
      rewrite bind_run.
      destruct (M_map _ all w2) as [[ext|] w3] eqn:Hext; [|done].
      apply M_map_length in Hext.
      rewrite bind_run.
      destruct (log_if logger INFO (MsgComputedPlumes ext) w3) as [[[]|] w4];
        [|done].
      simpl. intros [= ->]. simpl in *. lia.
    + unfold process_plumes. rewrite bind_run.
      destruct (log_if logger INFO (MsgFlist flist) w) as [r w0] eqn:Hlog.
      assert (r = Ok tt) as -> by (by destruct logger; injection Hlog as <- _).
      simpl in Hload. rewrite bind_run, Hload. done.
  - intros Hno.
    destruct (read_no_data_rows E minppmm_key flist
                (log_if logger INFO (MsgFlist flist) w).2) as (w1 & Hload & Hf).
    { by destruct logger. }
    rewrite (process_plumes_run _ _ _ _ _ _ _ _ _ Hload).
    assert (concat ((λ _ : string, @nil record) <$> flist) = []) as ->.
    { clear. induction flist; simpl; [done|]. done. }
    split; [done|]. simpl. rewrite Hf. by destruct logger.
Qed.

Lemma C10_empty_load_is_fatal_witness :
  (process_plumes demo ["ime_minppmm500_b.csv"] "winds" (PInt (-9999))
     default_minppmm_key None plumes_world).1
  = Raise IndexError.
Proof.
  apply (C10_empty_load_is_fatal demo ["ime_minppmm500_b.csv"] "winds"
           (PInt (-9999)) default_minppmm_key None plumes_world).
  intros fname ->%list_elem_of_singleton. split.
  - exists 500. reflexivity.
  - eexists _, _. split; [vm_compute; reflexivity|].
    split; vm_compute; reflexivity.
Defined.



Lemma C4_get_minppmm_from_fname_witness :
  get_minppmm_from_fname demo "ang20160101_ime_minppmm0500_plumes.csv"
  = Ok 500 ∧
  get_minppmm_from_fname demo "ang20160101_ime_plumes.csv" = Raise ValueError ∧
  (∃ pre ds post vs,
     regex_match demo_decimal_zeros
       (fsdecode "ang20160101_ime_minppmm0500_plumes.csv") pre ds post ∧
     digits_end demo_decimal_zeros post ∧
     (∀ pre' ds' post',
        regex_match demo_decimal_zeros
          (fsdecode "ang20160101_ime_minppmm0500_plumes.csv") pre' ds' post' →
        (length pre ≤ length pre')%nat) ∧
     Forall2 (digit_of demo_decimal_zeros) ds vs ∧
     get_minppmm_from_fname demo "ang20160101_ime_minppmm0500_plumes.csv"
     = if int_limit_exceeded 4300 (length ds) then Raise ValueError
       else Ok (decimal_value vs)) ∧
  (main demo (Some "ang20160101_ime_plumes.csv") "winds" "out.csv"
     plumes_world).1 = Raise ValueError.
Proof.
  split_and!.
  - vm_compute. reflexivity.
  - apply (C4_get_minppmm_from_fname demo "ang20160101_ime_plumes.csv").
    apply re_search_None. vm_compute. reflexivity.
  - apply (C4_get_minppmm_from_fname demo
             "ang20160101_ime_minppmm0500_plumes.csv").
    exists (fsdecode "ang20160101_ime_"), (fsdecode "0500"),
      (fsdecode "_plumes.csv").
    split; [vm_compute; reflexivity|]. split; [done|].
    apply all_digits_spec. vm_compute. reflexivity.
  - destruct (C4_get_minppmm_from_fname demo "ang20160101_ime_plumes.csv")
      as (_ & _ & _ & Hfatal).
    destruct (Hfatal eq_refl [] "winds" (PInt (-9999)) default_minppmm_key
                None "out.csv" plumes_world) as (_ & _ & Hmain & _).
    exact Hmain.
Defined.

(** ** What the loader and the enrichment leave alone *)

Section keeps.
Context (allowed : fs_event → Prop).

Lemma reads_only_refl w : reads_only allowed w w.
Proof.
  split; [done|]. split; [done|]. split; [done|].
  exists []. by rewrite app_nil_r.
Qed.

Lemma reads_only_trans w1 w2 w3 :
  reads_only allowed w1 w2 → reads_only allowed w2 w3 →
  reads_only allowed w1 w3.
Proof.
  intros (Hf1 & Hd1 & Hs1 & evs1 & Ht1 & Ha1)
         (Hf2 & Hd2 & Hs2 & evs2 & Ht2 & Ha2).
  split; [congruence|]. split; [congruence|]. split; [congruence|].
  exists (evs1 ++ evs2). split.
  - by rewrite Ht2, Ht1, app_assoc.
  - by apply Forall_app.
Qed.

Lemma keeps_ret {A} (a : A) : M_keeps (reads_only allowed) (mret a).
Proof. intros w. apply reads_only_refl. Qed.

Lemma keeps_lift {A} (r : result A) : M_keeps (reads_only allowed) (lift r).
Proof. intros w. apply reads_only_refl. Qed.

Lemma keeps_log_if logger lvl msg :
  M_keeps (reads_only allowed) (log_if logger lvl msg).
Proof.
  intros w. destruct logger; simpl; [|apply reads_only_refl].
  split; [done|]. split; [done|]. split; [done|].
  exists []. by rewrite app_nil_r.
Qed.

Lemma keeps_bind {A B} (m : M A) (f : A → M B) :
  M_keeps (reads_only allowed) m →
  (∀ a, M_keeps (reads_only allowed) (f a)) →
  M_keeps (reads_only allowed) (m ≫= f).
Proof.
  intros Hm Hf w. rewrite bind_run. specialize (Hm w).
  destruct (m w) as [[a|e] w1]; simpl in *; [|done].
  eapply reads_only_trans; [exact Hm|apply Hf].
Qed.

Lemma keeps_fold {A S} (f : S → A → M S) (s : S) (l : list A) :
  (∀ s x, x ∈ l → M_keeps (reads_only allowed) (f s x)) →
  M_keeps (reads_only allowed) (M_fold f s l).
Proof.
  revert s. induction l as [|x xs IH]; intros s Hf; simpl.
  - apply keeps_ret.
  - apply keeps_bind; [apply Hf; by left|].
    intros s'. apply IH. intros. apply Hf. by right.
Qed.

Lemma keeps_map {A B} (f : A → M B) (l : list A) :
  (∀ x, x ∈ l → M_keeps (reads_only allowed) (f x)) →
  M_keeps (reads_only allowed) (M_map f l).
Proof.
  induction l as [|x xs IH]; intros Hf; simpl.
  - apply keeps_ret.
  - apply keeps_bind; [apply Hf; by left|]. intros y.
    apply keeps_bind; [apply IH; intros; apply Hf; by right|].
    intros ys. apply keeps_ret.
Qed.

Lemma keeps_event {A} (e : fs_event) (r : world → result A) :
  allowed e → M_keeps (reads_only allowed) (λ w, (r w, record_event e w)).
Proof.
  intros He w. split; [done|]. split; [done|]. split; [done|].
  exists [e]. split; [done|]. by constructor.
Qed.
End keeps.

Lemma process_plume_reads_only E flist plume winds_dir fill logger :
  M_keeps (reads_only (loader_call flist winds_dir))
    (process_plume E plume winds_dir fill logger).
Proof.
  unfold process_plume.
  apply keeps_bind; [apply keeps_log_if|]. intros _.
  apply keeps_bind; [apply keeps_log_if|]. intros _.
  apply keeps_bind.
  { apply (keeps_event _ (EvListDir winds_dir)). by right. }
  intros entries. apply keeps_bind.
  - apply keeps_fold. intros [p es] subdir _. unfold process_plume_subdir.
    apply keeps_bind; [apply keeps_log_if|]. intros _.
    destruct (is_unknown (WindType E subdir)); [apply keeps_ret|].
    apply keeps_bind.
    + apply keeps_fold. intros p' alt _. unfold process_plume_alt.
      apply keeps_bind; [apply keeps_lift|]. intros ?. apply keeps_ret.
    + intros p'. apply keeps_bind; [apply keeps_lift|]. intros ?.
      apply keeps_ret.
  - intros st. apply keeps_bind; [apply keeps_log_if|]. intros _.
    apply keeps_ret.
Qed.

Lemma process_plumes_reads_only E flist winds_dir fill key logger :
  M_keeps (reads_only (loader_call flist winds_dir))
    (process_plumes E flist winds_dir fill key logger).
Proof.
  unfold process_plumes.
  apply keeps_bind; [apply keeps_log_if|]. intros _.
  apply keeps_bind.
  { apply keeps_map. intros fname Hin. unfold read_plume_file.
    apply keeps_bind; [apply keeps_lift|]. intros n.
    unfold dict_reader_plus_update. apply keeps_bind.
    - apply (keeps_event _ (EvOpenRead fname)). left. by exists fname.
    - intros text. apply keeps_bind; [apply keeps_lift|]. intros rows.
      apply keeps_ret. }
  intros per_file. apply keeps_bind; [apply keeps_lift|]. intros first.
  apply keeps_bind; [apply keeps_lift|]. intros k.
  apply keeps_bind; [apply keeps_lift|]. intros plumes.
  apply keeps_bind; [apply keeps_log_if|]. intros _.
  apply keeps_bind.
  { apply keeps_map. intros plume _. apply process_plume_reads_only. }
  intros ext. apply keeps_bind; [apply keeps_log_if|]. intros _.
  apply keeps_ret.
Qed.

Lemma no_calls_trace w w' : reads_only (λ _, False) w w' → trace w' = trace w.
Proof.
  intros (_ & _ & _ & evs & -> & Hevs).
  destruct evs as [|e evs]; [by rewrite app_nil_r|].
  by apply Forall_cons in Hevs as [[] _].
Qed.

(** A call of [process_plume] lists the wind root once, and makes no
    other call. *)
Lemma process_plume_trace E plume winds_dir fill logger w :
  trace (process_plume E plume winds_dir fill logger w).2
  = trace w ++ [EvListDir winds_dir].
Proof.
  destruct (dirs w !! winds_dir) as [entries|] eqn:Hdir.
  - rewrite (process_plume_run _ _ _ _ _ _ _ Hdir).
    match goal with |- trace (?m ?w0).2 = _ => 
      assert (reads_only (λ _, False) w0 (m w0).2) as H%no_calls_trace
    end; [|by rewrite H].
    apply keeps_bind.
    + apply keeps_fold. intros [p es] subdir _. unfold process_plume_subdir.
      apply keeps_bind; [apply keeps_log_if|]. intros _.
      destruct (is_unknown (WindType E subdir)); [apply keeps_ret|].
      apply keeps_bind.
      * apply keeps_fold. intros p' alt _. unfold process_plume_alt.
        apply keeps_bind; [apply keeps_lift|]. intros ?. apply keeps_ret.
      * intros p'. apply keeps_bind; [apply keeps_lift|]. intros ?.
        apply keeps_ret.
    + intros st. apply keeps_bind; [apply keeps_log_if|]. intros _.
      apply keeps_ret.
  - destruct w as [f d t lg s]. simpl in Hdir. unfold process_plume.
    rewrite bind_run.
    destruct logger; simpl; rewrite bind_run; simpl; rewrite bind_run;
      unfold os_listdir at 1, record_event; simpl; rewrite Hdir; reflexivity.
Qed.

Lemma enrich_trace E winds_dir fill logger plumes w ext w' :
  M_map (λ plume, process_plume E plume winds_dir fill logger) plumes w
  = (Ok ext, w') →
  trace w' = trace w ++ replicate (length ext) (EvListDir winds_dir).
Proof.
  revert w ext w'. induction plumes as [|x xs IH]; intros w ext w'; simpl.
  - intros [= <- <-]. simpl. by rewrite app_nil_r.
  - rewrite bind_run.
    pose proof (process_plume_trace E x winds_dir fill logger w) as Ht.
    destruct (process_plume E x winds_dir fill logger w) as [[y|e] w1];
      [|done].
    rewrite bind_run.
    destruct (M_map (λ plume, process_plume E plume winds_dir fill logger)
                xs w1) as [[ys|e] w2] eqn:Hxs; [|done].
    intros [= <- <-]. rewrite (IH _ _ _ Hxs). simpl in Ht. rewrite Ht.
    simpl. by rewrite <- app_assoc.
Qed.

Lemma load_trace E key flist w per_file w' :
  M_map (read_plume_file E key) flist w = (Ok per_file, w') →
  trace w' = trace w ++ (EvOpenRead <$> flist).
Proof.
  revert w per_file w'.
  induction flist as [|fname rest IH]; intros w per_file w'; simpl.
  - intros [= <- <-]. by rewrite app_nil_r.
  - rewrite bind_run. unfold read_plume_file at 1. rewrite bind_run.
    unfold lift at 1.
    destruct (get_minppmm_from_fname E fname) as [n|]; [|done].
    cbv beta iota. unfold dict_reader_plus_update. rewrite bind_run.
    unfold read_file at 1.
    destruct (files w !! fname) as [text|]; [|done].
    cbv beta iota. rewrite bind_run. unfold lift at 1.
    destruct (csv_reader E true text) as [rows|]; [|done].
    cbv beta iota. unfold mret at 1, M_ret at 1. cbv beta iota.
    rewrite bind_run.
    destruct (M_map (read_plume_file E key) rest
                (record_event (EvOpenRead fname) w))
      as [[ys|e] w2] eqn:Hrest; [|done].
    intros [= <- <-]. rewrite (IH _ _ _ Hrest). simpl.
    by rewrite <- app_assoc.
Qed.

Lemma process_plumes_trace E flist winds_dir fill minppmm_key logger w
    out w' :
  process_plumes E flist winds_dir fill minppmm_key logger w = (Ok out, w') →
  trace w'
  = trace w ++ (EvOpenRead <$> flist)
    ++ replicate (length out) (EvListDir winds_dir).
Proof.
  destruct (M_map (read_plume_file E minppmm_key) flist
              (log_if logger INFO (MsgFlist flist) w).2)
    as [[per_file|e] w1] eqn:Hload.
  2:{ unfold process_plumes. rewrite bind_run.
      destruct (log_if logger INFO (MsgFlist flist) w) as [[[]|] w0] eqn:Hlog;
        [|by destruct logger].
      simpl in Hload. rewrite bind_run, Hload. done. }
  rewrite (process_plumes_run _ _ _ _ _ _ _ _ _ Hload).
  apply load_trace in Hload.
  assert (trace w1 = trace w ++ (EvOpenRead <$> flist)) as Hw1.
  { rewrite Hload. by destruct logger. }
  clear Hload.
  rewrite bind_run. unfold lift at 1.
  destruct (list_first (concat per_file)) as [first|]; [|done].
  cbv beta iota. rewrite bind_run. unfold lift at 1.
  destruct (list_first (dict_keys first)) as [k|]; [|done].
  cbv beta iota. rewrite bind_run. unfold lift at 1.
  destruct (sorted (concat per_file) (dict_getitem k)) as [plumes|]; [|done].
  cbv beta iota. unfold enrich_plumes. rewrite bind_run.
  assert (trace (log_if logger INFO (MsgPlumes plumes) w1).2 = trace w1)
    as Hw2 by (by destruct logger).
  destruct (log_if logger INFO (MsgPlumes plumes) w1) as [[[]|] w2]; [|done].
  rewrite bind_run.
  destruct (M_map (λ plume, process_plume E plume winds_dir fill logger)
              plumes w2) as [[ext|] w3] eqn:Hext; [|done].
  apply enrich_trace in Hext.
  rewrite bind_run.
  assert (trace (log_if logger INFO (MsgComputedPlumes ext) w3).2 = trace w3)
    as Hw4 by (by destruct logger).
  destruct (log_if logger INFO (MsgComputedPlumes ext) w3) as [[[]|] w4];
    [|done].
  intros [= <- <-]. simpl in *.
  rewrite Hw4, Hext, Hw2, Hw1. by rewrite <- app_assoc.
Qed.

(** X1. The loader and the enrichment only read.  Whatever the inputs
    and whether it returns or raises, [process_plumes] leaves every
    file, every directory and the standard output as they were, and the
    calls its own code makes to the file system are readings of the
    listed input files and listings of the wind root.  When it returns,
    these calls are: one reading of each listed file, in the order of
    the list, then one listing of the wind root for each record
    returned.  (What the imported classifier and statistics functions
    read is not part of this: they are taken as functions of their
    arguments.) *)
Theorem X1_process_plumes_only_reads (E : externals) (flist : list string)
    (winds_dir : string) (fill : pyval) (minppmm_key : string)
    (logger : option Logger) (w : world) :
  let out := process_plumes E flist winds_dir fill minppmm_key logger w in
  files out.2 = files w ∧ dirs out.2 = dirs w ∧ stdout out.2 = stdout w ∧
  (∃ calls,
     trace out.2 = trace w ++ calls ∧
     Forall (λ e, (∃ fname, fname ∈ flist ∧ e = EvOpenRead fname)
                  ∨ e = EvListDir winds_dir) calls) ∧
  ∀ plumes, out.1 = Ok plumes →
    trace out.2
    = trace w ++ (EvOpenRead <$> flist)
      ++ replicate (length plumes) (EvListDir winds_dir).
Proof.
  simpl.
  destruct (process_plumes_reads_only E flist winds_dir fill minppmm_key
              logger w) as (Hf & Hd & Hs & calls & Ht & Hcalls).
  split; [exact Hf|]. split; [exact Hd|]. split; [exact Hs|].
  split; [exists calls; split; [exact Ht|exact Hcalls]|].
  intros plumes Hout. eapply process_plumes_trace.
  rewrite <- Hout. apply surjective_pairing.
Qed.

Lemma X1_process_plumes_only_reads_witness :
  trace (process_plumes demo
           ["ime_minppmm1000_a.csv"; "ime_minppmm500_b.csv"] "winds"
           (PInt (-9999)) default_minppmm_key None plumes_world).2
  = [EvOpenRead "ime_minppmm1000_a.csv"; EvOpenRead "ime_minppmm500_b.csv";
     EvListDir "winds"; EvListDir "winds"].
Proof.
  destruct (X1_process_plumes_only_reads demo
              ["ime_minppmm1000_a.csv"; "ime_minppmm500_b.csv"] "winds"
              (PInt (-9999)) default_minppmm_key None plumes_world)
    as (_ & _ & _ & _ & H).
  rewrite (H _ eq_refl). vm_compute. reflexivity.
Defined.

(** ** What the writer leaves alone *)

Lemma insert_plumes_in_file_nil E fname sort_by_key logger w :
  insert_plumes_in_file E [] fname sort_by_key logger w
  = (Ok tt,
     World (files w) (dirs w) (trace w)
       (log w ++ match logger with
                 | Some _ => [(WARNING, MsgSkippedEmpty)]
                 | None => []
                 end)
       (stdout w)).
Proof.
  destruct w as [f d t l s]. unfold insert_plumes_in_file. simpl.
  destruct logger; simpl; rewrite ?app_nil_r; reflexivity.
Qed.

Lemma insert_plumes_in_file_frame E plumes fname sort_by_key logger w :
  touches_only fname w
    (insert_plumes_in_file E plumes fname sort_by_key logger w).2 ∧
  stdout (insert_plumes_in_file E plumes fname sort_by_key logger w).2
  = stdout w.
Proof.
  unfold touches_only. destruct plumes as [|p ps].
  - rewrite insert_plumes_in_file_nil. done.
  - rewrite insert_plumes_in_file_run by done.
    unfold insert_outcome, existing_records, backup_world, written_world,
      refused_world.
    destruct (can_open_for_writing w fname);
      (destruct (files w !! fname) as [text|]; simpl;
       [destruct (csv_reader E false text) as [rows|e]; simpl; [|done];
        destruct (sort_step sort_by_key (DictReader_rows rows ++ p :: ps))
       |destruct (sort_step sort_by_key (p :: ps))]);
      simpl; (split; [|done]); (split; [done|]); intros path H1 H2;
      by rewrite ?lookup_insert_ne.
Qed.

(** X2. Whatever the inputs, [insert_plumes_in_file] changes no file
    other than the output file and its backup, and no directory nor the
    standard output. *)
Theorem X2_insert_touches_only_output (E : externals)
    (plumes : list record) (fname : string) (sort_by_key : option string)
    (logger : option Logger) (w : world) :
  let out := insert_plumes_in_file E plumes fname sort_by_key logger w in
  dirs out.2 = dirs w ∧ stdout out.2 = stdout w ∧
  ∀ path, path ≠ fname → path ≠ fname +:+ ".bak" →
          files out.2 !! path = files w !! path.
Proof.
  simpl.
  destruct (insert_plumes_in_file_frame E plumes fname sort_by_key logger w)
    as [[Hd Hf] Hs].
  split; [exact Hd|]. split; [exact Hs|]. exact Hf.
Qed.

(** X3. A call of [insert_plumes_in_file] that raises has not touched the
    output file: every exception (an unreadable output file, a sort key
    missing from a later record, keys that do not compare, an output file
    that cannot be created) comes before the file is open for writing. *)
Theorem X3_insert_failure_keeps_output (E : externals)
    (plumes : list record) (fname : string) (sort_by_key : option string)
    (logger : option Logger) (w : world) (e : exn) :
  (insert_plumes_in_file E plumes fname sort_by_key logger w).1 = Raise e →
  files (insert_plumes_in_file E plumes fname sort_by_key logger w).2 !! fname
  = files w !! fname ∧
  ¬ ∃ data,
      EvWrite fname data
      ∈ trace (insert_plumes_in_file E plumes fname sort_by_key logger w).2
      ∧ EvWrite fname data ∉ trace w.
Proof.
  destruct plumes as [|p ps].
  - rewrite insert_plumes_in_file_nil. done.
  - rewrite insert_plumes_in_file_run by done.
    unfold insert_outcome, existing_records, backup_world, refused_world.
    assert (∀ (t : list fs_event) evs data,
              Forall (λ ev, ∀ data', ev ≠ EvWrite fname data') evs →
              EvWrite fname data ∈ t ++ evs → EvWrite fname data ∈ t)
      as Hold.
    { intros t evs data Hevs [Hin|Hin]%elem_of_app; [done|].
      rewrite Forall_forall in Hevs. by destruct (Hevs _ Hin data). }
    destruct (files w !! fname) as [text|] eqn:Hf; simpl.
    + destruct (csv_reader E false text) as [rows|e']; simpl.
      * rewrite (can_open_existing w) by by rewrite Hf.
        destruct (sort_step sort_by_key (DictReader_rows rows ++ p :: ps));
          simpl; [done|]. intros _. split.
        { rewrite lookup_insert_ne by apply bak_ne. done. }
        intros (data & Hin & Hnot). apply Hnot.
        apply Hold in Hin; [done|]. by repeat constructor.
      * intros _. split; [done|].
        intros (data & Hin & Hnot). apply Hnot.
        apply Hold in Hin; [done|]. by repeat constructor.
    + destruct (sort_step sort_by_key (p :: ps)); simpl.
      * destruct (can_open_for_writing w fname); simpl; [done|].
        intros _. split; [done|].
        intros (data & Hin & Hnot). apply Hnot.
        apply Hold in Hin; [|by repeat constructor].
        apply Hold in Hin; [done|]. by repeat constructor.
      * intros _. split; [done|].
        intros (data & Hin & Hnot). apply Hnot.
        apply Hold in Hin; [done|]. by repeat constructor.
Qed.

Lemma X3_insert_failure_keeps_output_witness :
  let out := insert_plumes_in_file demo [plume_1; [(KStr "B", PStr "q")]]
               "out.csv" (Some "A") None out_world in
  out.1 = Raise KeyError ∧
  files out.2 !! "out.csv" = Some ("A,B" +:+ CRLF +:+ "0,w" +:+ CRLF).
Proof.
  split; [vm_compute; reflexivity|].
  destruct (X3_insert_failure_keeps_output demo
              [plume_1; [(KStr "B", PStr "q")]] "out.csv" (Some "A") None
              out_world KeyError) as [H _].
  - vm_compute. reflexivity.
  - rewrite H. vm_compute. reflexivity.
Defined.

(** ** [main] *)

(** X4. Whenever loading or enrichment raises [OSError], whatever its
    cause, [main] reports the input file as not found, returns normally
    and leaves every file as it was: a wind root that cannot be listed is
    reported under the name of the plume file. *)
Theorem X4_main_reports_OSError (E : externals) (plume_file : string)
    (winds_dir out_fname : string) (w : world) :
  (process_plumes E [plume_file] winds_dir (PInt (-9999))
     default_minppmm_key (Some TheLogger) w).1 = Raise OSError →
  let out := main E (Some plume_file) winds_dir out_fname w in
  out.1 = Ok tt ∧
  files out.2 = files w ∧
  stdout out.2 = stdout w ++ ["Could not find file: " +:+ plume_file].
Proof.
  intros Hraise. simpl. unfold main, try_except_OSError. rewrite bind_run.
  pose proof (process_plumes_reads_only E [plume_file] winds_dir
                (PInt (-9999)) default_minppmm_key (Some TheLogger) w)
    as (Hf & _ & Hs & _).
  destruct (process_plumes E [plume_file] winds_dir (PInt (-9999))
              default_minppmm_key (Some TheLogger) w) as [r w1].
  simpl in *. subst r. simpl. by rewrite Hf, Hs.
Qed.

Lemma X4_main_reports_OSError_witness :
  let out := main demo (Some "ime_minppmm1000_a.csv") "winds" "out.csv"
               no_winds_world in
  is_Some (files no_winds_world !! "ime_minppmm1000_a.csv") ∧
  dirs no_winds_world !! "winds" = None ∧
  out.1 = Ok tt ∧
  stdout out.2 = ["Could not find file: ime_minppmm1000_a.csv"].
Proof.
  split; [vm_compute; eauto|]. split; [vm_compute; reflexivity|].
  destruct (X4_main_reports_OSError demo "ime_minppmm1000_a.csv" "winds"
              "out.csv" no_winds_world) as (H1 & _ & H2).
  - vm_compute. reflexivity.
  - split; [exact H1|]. rewrite H2. reflexivity.
Defined.

(** X5. Whatever its arguments, [main] never lets an [OSError] escape,
    changes no directory, and changes no file other than the output file
    and its backup. *)
Theorem X5_main_touches_only_output (E : externals)
    (plume_file : option string) (winds_dir out_fname : string)
    (w : world) :
  let out := main E plume_file winds_dir out_fname w in
  out.1 ≠ Raise OSError ∧
  dirs out.2 = dirs w ∧
  ∀ path, path ≠ out_fname → path ≠ out_fname +:+ ".bak" →
          files out.2 !! path = files w !! path.
Proof.
  simpl. unfold main. destruct plume_file as [pf|]; [|done].
  unfold try_except_OSError. rewrite bind_run.
  pose proof (process_plumes_reads_only E [pf] winds_dir (PInt (-9999))
                default_minppmm_key (Some TheLogger) w)
    as (Hf & Hd & _ & _).
  destruct (process_plumes E [pf] winds_dir (PInt (-9999))
              default_minppmm_key (Some TheLogger) w) as [[plumes|e] w1];
    simpl in *.
  - pose proof (insert_plumes_in_file_frame E plumes out_fname
                  (Some "Candidate ID") (Some TheLogger) w1)
      as [[Hd2 Hf2] _].
    destruct (insert_plumes_in_file E plumes out_fname (Some "Candidate ID")
                (Some TheLogger) w1) as [[[]|e] w2]; simpl in *.
    + split; [done|]. split; [congruence|].
      intros path H1 H2. by rewrite Hf2, Hf.
    + destruct e; simpl; (split; [done|]); (split; [congruence|]);
        intros path H1 H2; by rewrite Hf2, Hf.
  - destruct e; simpl; (split; [done|]); (split; [done|]);
      intros path H1 H2; by rewrite Hf.
Qed.

(** ** Enrichment only adds fields *)

Lemma dict_keys_set_eq k v d :
  dict_keys (dict_set k v d)
  = if decide (k ∈ dict_keys d) then dict_keys d else dict_keys d ++ [k].
Proof.
  unfold dict_keys. induction d as [|[k' v'] d IH].
  - case_decide as H; [by apply elem_of_nil in H|done].
  - change (((k', v') :: d).*1) with (k' :: d.*1).
    change (dict_set k v ((k', v') :: d))
      with (if decide (k' = k) then (k, v) :: d
            else (k', v') :: dict_set k v d).
    destruct (decide (k' = k)) as [->|Hne].
    + rewrite decide_True; [done|]. by left.
    + change (((k', v') :: dict_set k v d).*1)
        with (k' :: (dict_set k v d).*1).
      rewrite IH. destruct (decide (k ∈ d.*1)) as [Hin|Hnin].
      * rewrite decide_True; [done|]. by right.
      * rewrite decide_False; [done|].
        intros [->|?]%elem_of_cons; done.
Qed.

Lemma extends_record_refl d : extends_record d d.
Proof. split; [done|tauto]. Qed.

Lemma extends_record_trans d1 d2 d3 :
  extends_record d1 d2 → extends_record d2 d3 → extends_record d1 d3.
Proof.
  intros [Hp1 Hn1] [Hp2 Hn2]. split; [by etrans|tauto].
Qed.

Lemma dict_set_extends k v d : extends_record d (dict_set k v d).
Proof.
  unfold extends_record. rewrite dict_keys_set_eq.
  destruct (decide (k ∈ dict_keys d)) as [Hin|Hnin]; [done|]. split.
  - by apply prefix_app_r.
  - intros Hnd. apply NoDup_app. split; [done|]. split.
    + intros x Hx ->%list_elem_of_singleton. done.
    + apply NoDup_singleton.
Qed.

Lemma dict_update_extends d m : extends_record d (dict_update d m).
Proof.
  unfold dict_update. revert d. induction m as [|[k v] m IH]; intros d; simpl.
  - apply extends_record_refl.
  - eapply extends_record_trans; [apply dict_set_extends|apply IH].
Qed.

(** What a loop returns is related to what it started from by any
    reflexive, transitive relation that every round respects. *)
Lemma M_fold_returns {A S} (Q : S → S → Prop) (f : S → A → M S) l :
  (∀ s, Q s s) → (∀ s1 s2 s3, Q s1 s2 → Q s2 s3 → Q s1 s3) →
  (∀ s x w s' w', f s x w = (Ok s', w') → Q s s') →
  ∀ s w s' w', M_fold f s l w = (Ok s', w') → Q s s'.
Proof.
  intros Hrefl Htrans Hf. induction l as [|x xs IH]; intros s w s' w'; simpl.
  - intros [= <- _]. apply Hrefl.
  - rewrite bind_run. destruct (f s x w) as [[s1|e] w1] eqn:Hx; [|done].
    intros Hxs. eapply Htrans; [by eapply Hf|by eapply IH].
Qed.

Lemma process_plume_alt_extends E winds_subdir fill wind_type logger
    plume alt w plume' w' :
  process_plume_alt E winds_subdir fill wind_type logger plume alt w
  = (Ok plume', w') →
  extends_record plume plume'.
Proof.
  unfold process_plume_alt. rewrite bind_run. unfold lift at 1.
  destruct (compute_wind_stats E plume winds_subdir fill wind_type alt
              logger) as [stats|]; [|done].
  intros [= <- _]. apply dict_update_extends.
Qed.

Lemma process_plume_subdir_extends E winds_dir fill logger st subdir w st' w' :
  process_plume_subdir E winds_dir fill logger st subdir w = (Ok st', w') →
  extends_record st.1 st'.1.
Proof.
  unfold process_plume_subdir. destruct st as [plume es]. rewrite bind_run.
  destruct (log_if logger INFO (MsgProcessingWinds subdir) w)
    as [[[]|] w1]; [|done].
  destruct (is_unknown (WindType E subdir)).
  { intros [= <- _]. apply extends_record_refl. }
  rewrite bind_run.
  destruct (M_fold _ plume _ w1) as [[plume'|] w2] eqn:Hfold; [|done].
  rewrite bind_run. unfold lift at 1.
  destruct (compute_emission_rate E plume' _ fill logger) as [rate|]; [|done].
  intros [= <- _]. simpl.
  eapply (M_fold_returns extends_record); [..|exact Hfold].
  - apply extends_record_refl.
  - apply extends_record_trans.
  - intros. by eapply process_plume_alt_extends.
Qed.

Lemma process_plume_extends E plume winds_dir fill logger w w' out :
  process_plume E plume winds_dir fill logger w = (Ok out, w') →
  extends_record plume out.
Proof.
  unfold process_plume. rewrite bind_run.
  destruct (log_if logger WARNING (MsgProcessingPlume plume) w)
    as [[[]|] w1]; [|done].
  rewrite bind_run.
  destruct (log_if logger INFO (MsgPlume plume) w1) as [[[]|] w2]; [|done].
  rewrite bind_run.
  destruct (os_listdir winds_dir w2) as [[entries|] w3]; [|done].
  rewrite bind_run.
  destruct (M_fold (process_plume_subdir E winds_dir fill logger) (plume, [])
              (sorted_str (filter (λ f, negb (startswith_dot f)) entries)) w3)
    as [[st|] w4] eqn:Hfold; [|done].
  cbv zeta. rewrite bind_run.
  destruct (log_if logger INFO _ w4) as [[[]|] w5]; [|done].
  intros [= <- _].
  pose proof (M_fold_returns
                (λ s s' : record * record, extends_record s.1 s'.1)
                (process_plume_subdir E winds_dir fill logger) _
                (λ s, extends_record_refl _)
                (λ s1 s2 s3, extends_record_trans _ _ _)
                (λ s x w s' w' H,
                   process_plume_subdir_extends _ _ _ _ _ _ _ _ _ H)
                _ _ _ _ Hfold) as Hst.
  simpl in Hst.
  apply (extends_record_trans _ _ _ Hst (dict_update_extends _ _)).
Qed.

(** X6. Enrichment only adds fields.  When [process_plume] returns, the
    fields of the record it was given are the first fields of the record
    it returns, in the same order, whatever the statistics functions
    return; and the result has no field twice if the input had none
    twice.  The columns of the input file therefore stay the leading
    columns of the header. *)
Theorem X6_enrichment_only_adds_fields (E : externals) (plume : record)
    (winds_dir : string) (fill : pyval) (logger : option Logger)
    (w w' : world) (out : record) :
  process_plume E plume winds_dir fill logger w = (Ok out, w') →
  (∃ added, dict_keys out = dict_keys plume ++ added) ∧
  (NoDup (dict_keys plume) → NoDup (dict_keys out)).
Proof.
  intros Hrun.
  destruct (process_plume_extends _ _ _ _ _ _ _ _ Hrun) as [Hprefix Hnodup].
  split; [exact Hprefix|exact Hnodup].
Qed.

Lemma X6_enrichment_only_adds_fields_witness :
  ∃ added,
    dict_keys (default [] (match (process_plume demo plume_1 "winds"
                                    (PInt (-9999)) None winds_world_1).1 with
                           | Ok out => Some out
                           | Raise _ => None
                           end))
    = [KStr "A"; KStr "B"] ++ added.
Proof.
  destruct (process_plume demo plume_1 "winds" (PInt (-9999)) None
              winds_world_1) as [r w'] eqn:Hrun.
  assert (r = Ok [(KStr "A", PStr "2"); (KStr "B", PStr "x");
                  (KStr "wind bulk", PInt 1000);
                  (KStr "rate bulk", PInt 1000)]) as ->.
  { apply (f_equal fst) in Hrun. vm_compute in Hrun. by subst r. }
  apply (X6_enrichment_only_adds_fields _ _ _ _ _ _ _ _ Hrun).
Defined.

(** ** The records the loader builds *)

(** X7. Every record that [read_plume_file] returns for a file holds,
    under the threshold field, the integer parsed from the name of that
    file, which is never negative; a column of the file that has the
    name of the threshold field is overwritten. *)
Theorem X7_loaded_records_carry_threshold (E : externals)
    (minppmm_key fname : string) (w w' : world) (records : list record) :
  read_plume_file E minppmm_key fname w = (Ok records, w') →
  ∃ n,
    get_minppmm_from_fname E fname = Ok n ∧ 0 ≤ n ∧
    ∀ d, d ∈ records → dict_get (KStr minppmm_key) d = Some (PInt n).
Proof.
  unfold read_plume_file. rewrite bind_run. unfold lift at 1.
  destruct (get_minppmm_from_fname E fname) as [n|] eqn:Hn; [|done].
  unfold dict_reader_plus_update. rewrite bind_run.
  destruct (read_file fname w) as [[text|] w1]; [|done].
  rewrite bind_run. unfold lift at 1.
  destruct (csv_reader E true text) as [rows|]; [|done].
  intros [= <- _]. exists n. split; [done|]. split.
  - by eapply get_minppmm_from_fname_nonneg.
  - intros d (row & -> & _)%list_elem_of_fmap.
    apply dict_get_set_eq.
Qed.

Lemma X7_loaded_records_carry_threshold_witness :
  ∃ n,
    get_minppmm_from_fname demo "ime_minppmm1000_a.csv" = Ok n ∧ 0 ≤ n ∧
    ∀ d, d ∈ [[(KStr "Candidate ID", PStr "002"); (KStr "IME (kg)", PStr "7.5");
               (KStr "Minimum Threshold (ppmm)", PInt 1000)]] →
         dict_get (KStr default_minppmm_key) d = Some (PInt n).
Proof.
  apply (X7_loaded_records_carry_threshold demo default_minppmm_key
           "ime_minppmm1000_a.csv" no_winds_world
           (read_plume_file demo default_minppmm_key "ime_minppmm1000_a.csv"
              no_winds_world).2).
  vm_compute. reflexivity.
Defined.

(** ** The sort of the loader *)

Lemma result_map_raise {A B} (f : A → result B) (l : list A) (e : exn) :
  (∀ a, a ∈ l → is_Ok (f a) ∨ f a = Raise e) →
  (∃ a, a ∈ l ∧ f a = Raise e) →
  result_map f l = Raise e.
Proof.
  induction l as [|x xs IH]; intros Hall (a & Hin & Ha).
  - by apply elem_of_nil in Hin.
  - simpl. destruct (Hall x) as [[y Hy]|Hx]; [by left| |by rewrite Hx].
    rewrite Hy. simpl. rewrite IH; [done| |].
    + intros b Hb. apply Hall. by right.
    + apply elem_of_cons in Hin as [->|Hin]; [congruence|]. by exists a.
Qed.

(** X8. The loader sorts on the first field of the first record: when a
    loaded record has no such field (a later file with another first
    column), [process_plumes] raises [KeyError] and no record is
    enriched. *)
Theorem X8_loader_sort_key_missing (E : externals) (flist : list string)
    (winds_dir : string) (fill : pyval) (minppmm_key : string)
    (logger : option Logger) (w w1 : world)
    (per_file : list (list record)) (first : record) (rest : list record)
    (k : pykey) (ks : list pykey) :
  M_map (read_plume_file E minppmm_key) flist
    (log_if logger INFO (MsgFlist flist) w).2 = (Ok per_file, w1) →
  concat per_file = first :: rest →
  dict_keys first = k :: ks →
  (∃ d, d ∈ rest ∧ dict_get k d = None) →
  process_plumes E flist winds_dir fill minppmm_key logger w
  = (Raise KeyError, w1).
Proof.
  intros Hload Hcat Hkeys (d & Hd & Hnone).
  rewrite (process_plumes_run _ _ _ _ _ _ _ _ _ Hload).
  rewrite Hcat.
  rewrite bind_run. unfold lift at 1, list_first at 1. cbv beta iota.
  rewrite bind_run, Hkeys. unfold lift at 1, list_first at 1. cbv beta iota.
  rewrite bind_run. unfold lift at 1, sorted.
  rewrite (result_map_raise (dict_getitem k) (first :: rest) KeyError).
  - reflexivity.
  - intros a _. unfold dict_getitem.
    destruct (dict_get k a); [left; by eexists|by right].
  - exists d. split; [by right|]. unfold dict_getitem. by rewrite Hnone.
Qed.

Lemma X8_loader_sort_key_missing_witness :
  (process_plumes demo ["ime_minppmm1000_a.csv"; "ime_minppmm500_c.csv"]
     "winds" (PInt (-9999)) default_minppmm_key None mixed_world).1
  = Raise KeyError.
Proof.
  rewrite (X8_loader_sort_key_missing demo
             ["ime_minppmm1000_a.csv"; "ime_minppmm500_c.csv"] "winds"
             (PInt (-9999)) default_minppmm_key None mixed_world
             (M_map (read_plume_file demo default_minppmm_key)
                ["ime_minppmm1000_a.csv"; "ime_minppmm500_c.csv"]
                mixed_world).2
             [[[(KStr "Candidate ID", PStr "002"); (KStr "IME", PStr "7.5");
                (KStr "Minimum Threshold (ppmm)", PInt 1000)]];
              [[(KStr "Plume", PStr "001"); (KStr "IME", PStr "3.5");
                (KStr "Minimum Threshold (ppmm)", PInt 500)]]]
             [(KStr "Candidate ID", PStr "002"); (KStr "IME", PStr "7.5");
              (KStr "Minimum Threshold (ppmm)", PInt 1000)]
             [[(KStr "Plume", PStr "001"); (KStr "IME", PStr "3.5");
               (KStr "Minimum Threshold (ppmm)", PInt 500)]]
             (KStr "Candidate ID")
             [KStr "IME"; KStr "Minimum Threshold (ppmm)"]).
  - reflexivity.
  - vm_compute. reflexivity.
  - reflexivity.
  - reflexivity.
  - eexists. split; [by left|]. reflexivity.
Defined.

Lemma foldl_set_get_ne {X} (g : X → pykey * pyval) (l : list X) d k0 :
  (∀ x, x ∈ l → (g x).1 ≠ k0) →
  dict_get k0 (foldl (λ acc x, dict_set (g x).1 (g x).2 acc) d l)
  = dict_get k0 d.
Proof.
  revert d. induction l as [|x xs IH]; intros d Hne; simpl; [done|].
  rewrite IH by (intros; apply Hne; by right).
  apply dict_get_set_ne, Hne. by left.
Qed.

Lemma foldl_set_extends {X} (g : X → pykey * pyval) (l : list X) d :
  extends_record d (foldl (λ acc x, dict_set (g x).1 (g x).2 acc) d l).
Proof.
  revert d. induction l as [|x xs IH]; intros d; simpl.
  - apply extends_record_refl.
  - eapply extends_record_trans; [apply dict_set_extends|apply IH].
Qed.

(** Under a header without repeated names, a row that is not empty gives
    a record whose first field is the first column, holding the first
    cell. *)
Lemma DictReader_row_first h hs c cs :
  NoDup (h :: hs) →
  dict_get (KStr h) (DictReader_row (h :: hs) (c :: cs)) = Some (PStr c) ∧
  ∃ ks, dict_keys (DictReader_row (h :: hs) (c :: cs)) = KStr h :: ks.
Proof.
  intros [Hh Hhs]%NoDup_cons. unfold DictReader_row.
  set (d0 := dict_zip (KStr <$> h :: hs) (PStr <$> c :: cs)).
  assert (dict_get (KStr h) d0 = Some (PStr c)) as Hget0.
  { subst d0. unfold dict_zip, dict_update. simpl.
    rewrite (foldl_set_get_ne id).
    - simpl. by rewrite decide_True.
    - intros [k v] Hin%elem_of_zip_l Hk. simpl in *. subst k.
      apply list_elem_of_fmap in Hin as (h' & [= <-] & Hin). done. }
  assert (extends_record [(KStr h, PStr c)] d0) as Hext0.
  { subst d0. unfold dict_zip, dict_update. simpl.
    apply (foldl_set_extends id). }
  assert (∀ d, dict_get (KStr h) d = Some (PStr c) →
               extends_record [(KStr h, PStr c)] d →
               dict_get (KStr h) d = Some (PStr c) ∧
               ∃ ks, dict_keys d = KStr h :: ks) as Hfin.
  { intros d Hg [[ks Hks] _]. split; [done|]. by exists ks. }
  destruct (length (h :: hs) <? length (c :: cs))%nat.
  - apply Hfin.
    + by rewrite dict_get_set_ne.
    + eapply extends_record_trans; [exact Hext0|apply dict_set_extends].
  - apply Hfin.
    + rewrite (foldl_set_get_ne (λ key, (KStr key, PNone))); [done|].
      intros key Hin [= ->]. simpl in Hin.
      apply Hh. by eapply subseteq_drop.
    + eapply extends_record_trans; [exact Hext0|].
      apply (foldl_set_extends (λ key, (KStr key, PNone))).
Qed.

Lemma process_plumes_sorted_run E flist winds_dir fill key logger w w1
    per_file first rest k ks :
  M_map (read_plume_file E key) flist
    (log_if logger INFO (MsgFlist flist) w).2 = (Ok per_file, w1) →
  concat per_file = first :: rest →
  dict_keys first = k :: ks →
  all_str_keys k (concat per_file) →
  process_plumes E flist winds_dir fill key logger w
  = enrich_plumes E (sort_by String.ltb (str_key k) (concat per_file))
      winds_dir fill logger w1.
Proof.
  intros Hload Hcat Hkeys Hall.
  rewrite (process_plumes_run _ _ _ _ _ _ _ _ _ Hload).
  rewrite Hcat in *.
  rewrite bind_run. unfold lift at 1, list_first at 1. cbv beta iota.
  rewrite bind_run, Hkeys. unfold lift at 1, list_first at 1. cbv beta iota.
  rewrite bind_run, sorted_all_str_keys by done.
  reflexivity.
Qed.

(** X9. For one input file, as [main] calls the loader, the sort cannot
    fail: when the name carries a threshold, the file can be read, its
    header has no name twice and does not start with the threshold field,
    and it has a data row, [process_plumes] enriches the records of the
    file in the stable order of their first column, compared as
    strings. *)
Theorem X9_single_file_sort_succeeds (E : externals) (fname : string)
    (winds_dir : string) (fill : pyval) (minppmm_key : string)
    (logger : option Logger) (w : world) (n : Z) (text : string)
    (h : string) (hs : list string) (data : list (list string)) :
  get_minppmm_from_fname E fname = Ok n →
  files w !! fname = Some text →
  csv_reader E true text = Ok ((h :: hs) :: data) →
  NoDup (h :: hs) →
  h ≠ minppmm_key →
  (∃ row, row ∈ data ∧ row ≠ []) →
  let loaded :=
    (λ row, dict_update (DictReader_row (h :: hs) row)
              [(KStr minppmm_key, PInt n)])
    <$> filter (λ row, row ≠ []) data in
  ∃ plumes w1,
    stably_sorted_by (KStr h) loaded plumes ∧
    process_plumes E [fname] winds_dir fill minppmm_key logger w
    = enrich_plumes E plumes winds_dir fill logger w1.
Proof.
  intros Hn Hf Hrows Hnd Hkey (row0 & Hin0 & Hne0) loaded.
  exists (sort_by String.ltb (str_key (KStr h)) loaded).
  exists (record_event (EvOpenRead fname)
            (log_if logger INFO (MsgFlist [fname]) w).2).
  split; [apply sort_by_stably_sorted|].
  assert (∀ d, d ∈ loaded →
               (∃ c, dict_get (KStr h) d = Some (PStr c)) ∧
               ∃ ks, dict_keys d = KStr h :: ks) as Hloaded.
  { intros d (row & -> & [Hrow _]%list_elem_of_filter)%list_elem_of_fmap.
    destruct row as [|c cs]; [done|].
    destruct (DictReader_row_first h hs c cs Hnd) as [Hget [ks Hks]].
    change (dict_update ?r [(?k, ?v)]) with (dict_set k v r). split.
    - exists c. rewrite dict_get_set_ne; [done|]. by intros [= ->].
    - destruct (dict_set_extends (KStr minppmm_key) (PInt n)
                  (DictReader_row (h :: hs) (c :: cs))) as [[ks' Hks'] _].
      rewrite Hks', Hks. by eexists. }
  assert (∃ first rest, loaded = first :: rest) as (first & rest & Hl).
  { assert (row0 ∈ filter (λ row, row ≠ []) data) as Hin
      by by apply list_elem_of_filter.
    subst loaded. destruct (filter (λ row, row ≠ []) data); [|by eexists _, _].
    by apply elem_of_nil in Hin. }
  destruct (Hloaded first) as [_ [ks Hks]]; [rewrite Hl; by left|].
  erewrite (process_plumes_sorted_run E [fname] winds_dir fill minppmm_key
              logger w _ [loaded] first rest (KStr h) ks).
  - simpl. rewrite app_nil_r. reflexivity.
  - assert (files (log_if logger INFO (MsgFlist [fname]) w).2 !! fname
            = Some text) as Hf0 by by destruct logger.
    unfold M_map, read_plume_file, dict_reader_plus_update.
    rewrite 2 bind_run, Hn. unfold lift at 1. cbv beta iota.
    rewrite bind_run. unfold read_file at 1. rewrite Hf0. cbv beta iota.
    rewrite bind_run, Hrows. unfold lift, mret, M_ret. cbv beta iota.
    rewrite bind_run. cbv beta iota. subst loaded. unfold DictReader_rows.
    rewrite <- list_fmap_compose. reflexivity.
  - simpl. by rewrite app_nil_r.
  - done.
  - simpl. rewrite app_nil_r. intros d Hd. by apply Hloaded.
Qed.

Lemma X9_single_file_sort_succeeds_witness :
  ∃ plumes w1,
    stably_sorted_by (KStr "Candidate ID")
      [[(KStr "Candidate ID", PStr "002"); (KStr "IME (kg)", PStr "7.5");
        (KStr "Minimum Threshold (ppmm)", PInt 1000)];
       [(KStr "Candidate ID", PStr "001"); (KStr "IME (kg)", PStr "120.5");
        (KStr "Minimum Threshold (ppmm)", PInt 1000)]] plumes ∧
    process_plumes demo ["ime_minppmm1000_a.csv"] "winds" (PInt (-9999))
      default_minppmm_key None plumes_world
    = enrich_plumes demo plumes "winds" (PInt (-9999)) None w1.
Proof.
  apply (X9_single_file_sort_succeeds demo "ime_minppmm1000_a.csv" "winds"
           (PInt (-9999)) default_minppmm_key None plumes_world 1000
           ("Candidate ID, IME (kg)" +:+ CRLF +:+ "002, 7.5" +:+ CRLF
            +:+ "001, 120.5" +:+ CRLF)
           "Candidate ID" ["IME (kg)"] [["002"; "7.5"]; ["001"; "120.5"]]).
  - reflexivity.
  - vm_compute. reflexivity.
  - vm_compute. reflexivity.
  - apply NoDup_cons. split; [|apply NoDup_singleton].
    intros [=]%list_elem_of_singleton.
  - intros [=].
  - exists ["002"; "7.5"]. split; [by left|done].
Defined.

(** ** Rows read and written back *)

Lemma dict_set_fresh k v d : k ∉ dict_keys d → dict_set k v d = d ++ [(k, v)].
Proof.
  unfold dict_keys. induction d as [|[k' v'] d IH]; intros Hk; simpl; [done|].
  simpl in Hk. apply not_elem_of_cons in Hk as [Hne Hk].
  rewrite decide_False by done. by rewrite IH.
Qed.

Lemma dict_update_fresh d m :
  NoDup (m.*1) → (∀ k, k ∈ m.*1 → k ∉ dict_keys d) →
  dict_update d m = d ++ m.
Proof.
  unfold dict_update. revert d. induction m as [|[k v] m IH]; intros d Hnd Hfresh.
  - simpl. by rewrite app_nil_r.
  - simpl in *. apply NoDup_cons in Hnd as [Hk Hnd].
    rewrite dict_set_fresh by (apply Hfresh; by left).
    rewrite IH; [by rewrite <- app_assoc|done|].
    intros k' Hk'. unfold dict_keys. rewrite fmap_app. simpl.
    intros [Hin| ->%list_elem_of_singleton]%elem_of_app; [|done].
    eapply Hfresh; [right; exact Hk'|exact Hin].
Qed.

(** A record given as the pairing of distinct names with values: its
    fields are the names, it fits them, and its cells are the values. *)
Lemma zip_record ks vs :
  NoDup ks → length vs = length ks →
  dict_keys (zip ks vs) = ks ∧ fits ks (zip ks vs) = true ∧
  row_cells ks (zip ks vs) = vs.
Proof.
  intros Hnd Hlen.
  assert (dict_keys (zip ks vs) = ks) as Hkeys.
  { unfold dict_keys. apply fst_zip. lia. }
  split; [done|]. split.
  { apply fits_spec. by rewrite Hkeys. }
  unfold row_cells. revert vs Hlen Hkeys.
  induction Hnd as [|k ks Hk Hnd IH]; intros [|v vs] Hlen Hkeys;
    simpl in *; try done.
  rewrite decide_True by done. simpl. f_equal.
  transitivity ((λ key, default (PStr "") (dict_get key (zip ks vs))) <$> ks).
  - apply list_fmap_ext. intros i k' Hk'.
    rewrite decide_False; [done|]. intros ->.
    apply Hk. by eapply list_elem_of_lookup_2.
  - apply IH; [lia|]. unfold dict_keys. apply fst_zip. lia.
Qed.

#[local] Instance KStr_inj : Inj (=) (=) KStr.
Proof. by intros s1 s2 [= ->]. Qed.

(** A row no longer than the header is read as the header paired with
    its cells, the missing ones being [None]. *)
Lemma DictReader_row_short (header row : list string) :
  NoDup header → (length row ≤ length header)%nat →
  DictReader_row header row
  = zip (KStr <$> header)
      ((PStr <$> row) ++ replicate (length header - length row) PNone).
Proof.
  intros Hnd Hlen. unfold DictReader_row.
  assert ((length header <? length row)%nat = false) as ->
    by by apply Nat.ltb_ge.
  remember (length header - length row)%nat as pad eqn:Hpad.
  assert (length (drop (length row) header) = pad) as Hl2
    by (rewrite length_drop; lia).
  assert (length (take (length row) header) = length row) as Hl1
    by (rewrite length_take; lia).
  rewrite <- (take_drop (length row) header) in Hnd.
  rewrite <- (take_drop (length row) header) at 1 3.
  set (hs1 := take (length row) header) in *.
  set (hs2 := drop (length row) header) in *.
  apply NoDup_app in Hnd as (Hnd1 & Hdisj & Hnd2).
  assert (dict_zip (KStr <$> hs1 ++ hs2) (PStr <$> row)
          = zip (KStr <$> hs1) (PStr <$> row)) as ->.
  { unfold dict_zip. rewrite fmap_app.
    rewrite zip_with_app_l, take_ge, drop_ge by (rewrite !length_fmap; lia).
    rewrite zip_with_nil_r, app_nil_r.
    rewrite dict_update_fresh; [done| |intros k _; apply not_elem_of_nil].
    rewrite fst_zip by (rewrite !length_fmap; lia).
    by apply (NoDup_fmap_2 _). }
  rewrite fmap_app, zip_with_app by (rewrite !length_fmap; lia).
  assert (∀ d, foldl (λ acc key, dict_set (KStr key) PNone acc) d hs2
               = dict_update d (zip (KStr <$> hs2) (replicate pad PNone)))
    as ->.
  { rewrite <- Hl2. clear. unfold dict_update. induction hs2 as [|k ks IH];
      intros d; simpl; [done|]. by rewrite IH. }
  apply dict_update_fresh.
  - rewrite fst_zip by (rewrite length_fmap, length_replicate; lia).
    by apply (NoDup_fmap_2 _).
  - rewrite fst_zip by (rewrite length_fmap, length_replicate; lia).
    unfold dict_keys. rewrite fst_zip by (rewrite !length_fmap; lia).
    intros k (h2 & -> & Hin2)%list_elem_of_fmap
             (h1 & [= <-] & Hin1)%list_elem_of_fmap.
    by eapply Hdisj.
Qed.

Lemma string_concat_app l1 l2 :
  string_concat (l1 ++ l2) = string_concat l1 +:+ string_concat l2.
Proof.
  induction l1 as [|s l1 IH]; simpl; [done|].
  by rewrite IH, string_app_assoc.
Qed.

Lemma rows_written_app E fieldnames l1 l2 :
  rows_written E fieldnames (l1 ++ l2)
  = rows_written E fieldnames l1 ++ rows_written E fieldnames l2.
Proof. unfold rows_written. by rewrite filter_app, fmap_app. Qed.

(** The record read from a row no longer than the header is written back
    as its cells, padded. *)
Lemma DictReader_row_written (header row : list string) :
  NoDup header → (length row ≤ length header)%nat →
  dict_keys (DictReader_row header row) = KStr <$> header ∧
  fits (KStr <$> header) (DictReader_row header row) = true ∧
  row_cells (KStr <$> header) (DictReader_row header row)
  = padded header row.
Proof.
  intros Hnd Hlen. rewrite DictReader_row_short by done. unfold padded.
  apply zip_record.
  - by apply (NoDup_fmap_2 _).
  - rewrite length_app, !length_fmap, length_replicate. lia.
Qed.

Lemma rows_written_old E (header : list string) (data : list (list string)) :
  NoDup header →
  Forall (λ row, (length row ≤ length header)%nat) data →
  rows_written E (KStr <$> header) (DictReader_row header <$> data)
  = (λ row, csv_writerow E (padded header row)) <$> data.
Proof.
  intros Hnd. unfold rows_written.
  induction 1 as [|row data Hrow Hdata IH]; [done|].
  destruct (DictReader_row_written header row Hnd Hrow) as (_ & Hfit & Hcells).
  rewrite fmap_cons, filter_cons_True by by rewrite Hfit.
  rewrite !fmap_cons, Hcells. f_equal. exact IH.
Qed.



Lemma elem_of_concat {A} (x : A) (l : list A) (ls : list (list A)) :
  x ∈ l → l ∈ ls → x ∈ concat ls.
Proof.
  intros Hx Hl. induction ls as [|l' ls IH]; [by apply elem_of_nil in Hl|].
  simpl. apply elem_of_app.
  apply elem_of_cons in Hl as [<-|Hl]; [by left|right; by apply IH].
Qed.

Lemma DictReader_row_long (header row : list string) :
  (length header < length row)%nat →
  fits (KStr <$> header) (DictReader_row header row) = false.
Proof.
  intros Hlen. apply not_true_iff_false. intros Hfit.
  assert (KNone ∈ KStr <$> header) as Hin.
  { eapply fits_spec; [exact Hfit|]. unfold DictReader_row.
    rewrite (proj2 (Nat.ltb_lt _ _) Hlen). apply dict_keys_set. by left. }
  by apply list_elem_of_fmap in Hin as (h & [=] & _).
Qed.

Lemma rows_written_old_fitting E (header : list string)
    (data : list (list string)) :
  NoDup header →
  rows_written E (KStr <$> header) (DictReader_row header <$> data)
  = (λ row, csv_writerow E (padded header row))
    <$> filter (λ row, (length row ≤ length header)%nat) data.
Proof.
  intros Hnd. unfold rows_written.
  induction data as [|row data IH]; [done|].
  rewrite fmap_cons.
  destruct (decide (length row ≤ length header)%nat) as [Hle|Hgt].
  - destruct (DictReader_row_written header row Hnd Hle) as (_ & Hfit & Hcells).
    rewrite filter_cons_True by by rewrite Hfit.
    rewrite (filter_cons_True (λ row, (length row ≤ length header)%nat))
      by done.
    rewrite !fmap_cons, Hcells. f_equal. exact IH.
  - rewrite filter_cons_False
      by (rewrite DictReader_row_long by lia; by intros []).
    rewrite (filter_cons_False (λ row, (length row ≤ length header)%nat))
      by done.
    exact IH.
Qed.



(** ** One record out for each row in *)

Lemma M_map_Forall2 {A B} (Q : A → B → Prop) (f : A → M B) l :
  (∀ x w y w', f x w = (Ok y, w') → Q x y) →
  ∀ w ys w', M_map f l w = (Ok ys, w') → Forall2 Q l ys.
Proof.
  intros Hf. induction l as [|x xs IH]; intros w ys w'; simpl.
  - intros [= <- _]. constructor.
  - rewrite bind_run. destruct (f x w) as [[y|e] w1] eqn:Hx; [|done].
    rewrite bind_run. destruct (M_map f xs w1) as [[ys'|e] w2] eqn:Hxs; [|done].
    intros [= <- _]. constructor; [by eapply Hf|by eapply IH].
Qed.

Lemma log_if_same_dirs lg lvl msg :
  M_rel same_dirs (log_if lg lvl msg) (log_if lg lvl msg).
Proof. intros w1 w2 H. by destruct lg. Qed.

Lemma os_listdir_same_dirs path :
  M_rel same_dirs (os_listdir path) (os_listdir path).
Proof.
  intros w1 w2 H. unfold os_listdir, same_dirs in *. simpl. by rewrite H.
Qed.

(** The enrichment of a record depends on the world through its
    directories only. *)
Lemma process_plume_same_dirs E plume winds_dir fill logger :
  M_rel same_dirs (process_plume E plume winds_dir fill logger)
    (process_plume E plume winds_dir fill logger).
Proof.
  unfold process_plume.
  apply M_rel_bind; [apply log_if_same_dirs|]. intros _.
  apply M_rel_bind; [apply log_if_same_dirs|]. intros _.
  apply M_rel_bind; [apply os_listdir_same_dirs|]. intros entries.
  apply M_rel_bind.
  - apply M_rel_fold. intros [p es] subdir. unfold process_plume_subdir.
    apply M_rel_bind; [apply log_if_same_dirs|]. intros _.
    destruct (is_unknown (WindType E subdir)); [apply M_rel_ret|].
    apply M_rel_bind.
    + apply M_rel_fold. intros p' alt. unfold process_plume_alt.
      apply M_rel_bind; [apply M_rel_lift|]. intros ?. apply M_rel_ret.
    + intros p'. apply M_rel_bind; [apply M_rel_lift|]. intros ?.
      apply M_rel_ret.
  - intros st. apply M_rel_bind; [apply log_if_same_dirs|]. intros _.
    apply M_rel_ret.
Qed.

(** Each record the loop of [process_plumes] yields is the enrichment of
    the record at its place, whatever was enriched before it. *)
Lemma enrich_each E winds_dir fill logger plumes w0 w ext w' :
  dirs w0 = dirs w →
  M_map (λ plume, process_plume E plume winds_dir fill logger) plumes w0
  = (Ok ext, w') →
  Forall2 (λ d d', (process_plume E d winds_dir fill logger w).1 = Ok d')
    plumes ext.
Proof.
  revert w0 ext w'. induction plumes as [|x xs IH]; intros w0 ext w' Hd; simpl.
  - intros [= <- _]. constructor.
  - rewrite bind_run.
    pose proof (process_plume_same_dirs E x winds_dir fill logger w0 w Hd)
      as [Hr Hd'].
    pose proof (process_plume_reads_only E [] x winds_dir fill logger w)
      as (_ & Hdw & _).
    destruct (process_plume E x winds_dir fill logger w0) as [[y|e] w1]
      eqn:Hx; [|done].
    rewrite bind_run.
    destruct (M_map (λ plume, process_plume E plume winds_dir fill logger)
                xs w1) as [[ys|e] w2] eqn:Hxs; [|done].
    intros [= <- _]. constructor; [by rewrite <- Hr|].
    eapply IH; [|exact Hxs]. simpl in Hd'. unfold same_dirs in Hd'.
    congruence.
Qed.

Lemma read_plume_files_reads_only E key flist winds_dir :
  M_keeps (reads_only (loader_call flist winds_dir))
    (M_map (read_plume_file E key) flist).
Proof.
  apply keeps_map. intros fname Hin. unfold read_plume_file.
  apply keeps_bind; [apply keeps_lift|]. intros n.
  unfold dict_reader_plus_update. apply keeps_bind.
  - apply (keeps_event _ (EvOpenRead fname)). left. by exists fname.
  - intros text. apply keeps_bind; [apply keeps_lift|]. intros rows.
    apply keeps_ret.
Qed.

Lemma Forall2_conj {A B} (P Q : A → B → Prop) l k :
  Forall2 P l k → Forall2 Q l k → Forall2 (λ a b, P a b ∧ Q a b) l k.
Proof.
  induction 1 as [|a b l k HP _ IH]; intros HQ; [constructor|].
  apply Forall2_cons_1 in HQ as [HQ HQs]. constructor; [done|by apply IH].
Qed.

(** X12. The loader and the enrichment neither drop nor duplicate rows:
    when [process_plumes] returns, its result lists, for some
    rearrangement of the loaded records, the enrichment of each record
    at its place: what [process_plume] returns for that record alone.
    The enriched record has the fields of the loaded record first. *)
Theorem X12_one_record_per_row (E : externals) (flist : list string)
    (winds_dir : string) (fill : pyval) (minppmm_key : string)
    (logger : option Logger) (w w1 w' : world)
    (per_file : list (list record)) (out : list record) :
  M_map (read_plume_file E minppmm_key) flist
    (log_if logger INFO (MsgFlist flist) w).2 = (Ok per_file, w1) →
  process_plumes E flist winds_dir fill minppmm_key logger w = (Ok out, w') →
  ∃ plumes,
    plumes ≡ₚ concat per_file ∧
    Forall2 (λ d d',
               (process_plume E d winds_dir fill logger w).1 = Ok d' ∧
               ((∃ added, dict_keys d' = dict_keys d ++ added) ∧
                (NoDup (dict_keys d) → NoDup (dict_keys d'))))
      plumes out.
Proof.
  intros Hload. rewrite (process_plumes_run _ _ _ _ _ _ _ _ _ Hload).
  assert (dirs w1 = dirs w) as Hdirs.
  { pose proof (read_plume_files_reads_only E minppmm_key flist winds_dir
                  (log_if logger INFO (MsgFlist flist) w).2) as (_ & Hd & _).
    rewrite Hload in Hd. simpl in Hd. rewrite Hd. by destruct logger. }
  rewrite bind_run. unfold lift at 1.
  destruct (list_first (concat per_file)) as [first|]; [|done].
  cbv beta iota. rewrite bind_run. unfold lift at 1.
  destruct (list_first (dict_keys first)) as [k|]; [|done].
  cbv beta iota. rewrite bind_run. unfold lift at 1.
  destruct (sorted (concat per_file) (dict_getitem k)) as [plumes|] eqn:Hs;
    [|done].
  cbv beta iota. unfold enrich_plumes. rewrite bind_run.
  assert (dirs (log_if logger INFO (MsgPlumes plumes) w1).2 = dirs w)
    as Hdirs2 by (by destruct logger).
  destruct (log_if logger INFO (MsgPlumes plumes) w1) as [[[]|] w2]; [|done].
  rewrite bind_run.
  destruct (M_map (λ plume, process_plume E plume winds_dir fill logger)
              plumes w2) as [[ext|] w3] eqn:Hext; [|done].
  rewrite bind_run.
  destruct (log_if logger INFO (MsgComputedPlumes ext) w3) as [[[]|] w4];
    [|done].
  intros [= <- _]. exists plumes. split; [by eapply sorted_Permutation|].
  apply Forall2_conj.
  - eapply enrich_each; [|exact Hext]. exact Hdirs2.
  - eapply (M_map_Forall2 extends_record); [|exact Hext].
    intros x w0 y w0' H. cbv beta in H.
    exact (process_plume_extends _ _ _ _ _ _ _ _ H).
Qed.

Lemma X12_one_record_per_row_witness :
  ∃ plumes,
    plumes ≡ₚ
      concat [[[(KStr "Candidate ID", PStr "002"); (KStr "IME (kg)", PStr "7.5");
                (KStr "Minimum Threshold (ppmm)", PInt 1000)];
               [(KStr "Candidate ID", PStr "001");
                (KStr "IME (kg)", PStr "120.5");
                (KStr "Minimum Threshold (ppmm)", PInt 1000)]]; []] ∧
    Forall2 (λ d d',
               (process_plume demo d "winds" (PInt (-9999)) None
                  plumes_world).1 = Ok d' ∧
               ((∃ added, dict_keys d' = dict_keys d ++ added) ∧
                (NoDup (dict_keys d) → NoDup (dict_keys d'))))
      plumes
      [[(KStr "Candidate ID", PStr "001"); (KStr "IME (kg)", PStr "120.5");
        (KStr "Minimum Threshold (ppmm)", PInt 1000);
        (KStr "wind bulk", PInt 1000); (KStr "rate bulk", PInt 1000)];
       [(KStr "Candidate ID", PStr "002"); (KStr "IME (kg)", PStr "7.5");
        (KStr "Minimum Threshold (ppmm)", PInt 1000);
        (KStr "wind bulk", PInt 1000); (KStr "rate bulk", PInt 1000)]].
Proof.
  apply (X12_one_record_per_row demo
           ["ime_minppmm1000_a.csv"; "ime_minppmm500_b.csv"] "winds"
           (PInt (-9999)) default_minppmm_key None plumes_world
           (M_map (read_plume_file demo default_minppmm_key)
              ["ime_minppmm1000_a.csv"; "ime_minppmm500_b.csv"]
              plumes_world).2
           (process_plumes demo
              ["ime_minppmm1000_a.csv"; "ime_minppmm500_b.csv"] "winds"
              (PInt (-9999)) default_minppmm_key None plumes_world).2).
  - vm_compute. reflexivity.
  - vm_compute. reflexivity.
Defined.

(** ** Keys that do not compare *)

Lemma result_map_Ok {A B} (f : A → result B) (g : A → B) (l : list A) :
  (∀ a, a ∈ l → f a = Ok (g a)) → result_map f l = Ok (g <$> l).
Proof.
  induction l as [|x xs IH]; intros H; simpl; [done|].
  rewrite (H x) by left. simpl. unfold fmap in IH. rewrite IH; [done|].
  intros a Ha. apply H. by right.
Qed.

Lemma insert_decorated_raises {A} (x : pyval * A) l e :
  insert_decorated x l = Raise e → e = TypeError.
Proof.
  induction l as [|y ys IH]; simpl; [done|].
  destruct (py_lt y.1 x.1) as [[]|e'] eqn:Hlt; simpl.
  - destruct (insert_decorated x ys); simpl; [done|].
    intros [= <-]. by apply IH.
  - done.
  - intros [= <-]. revert Hlt. unfold py_lt.
    destruct y.1, x.1; congruence.
Qed.

Lemma sort_decorated_raises {A} (l : list (pyval * A)) e :
  sort_decorated l = Raise e → e = TypeError.
Proof.
  induction l as [|x xs IH]; simpl; [done|].
  destruct (sort_decorated xs) as [s|e']; simpl.
  - apply insert_decorated_raises.
  - intros [= <-]. by apply IH.
Qed.

(** Two or more keys, one of them [None]: the sort raises
    [TypeError]. *)
Lemma sort_decorated_None {A} (l : list (pyval * A)) :
  (2 ≤ length l)%nat → (∃ x, x ∈ l ∧ x.1 = PNone) →
  sort_decorated l = Raise TypeError.
Proof.
  induction l as [|x xs IH]; intros Hlen (z & Hin & Hz); simpl in *; [lia|].
  destruct (sort_decorated xs) as [s|e] eqn:Hs; simpl.
  - pose proof (sort_decorated_Permutation _ _ Hs) as Hperm.
    destruct (decide (x.1 = PNone)) as [Hx|Hx].
    + destruct s as [|y s'].
      { apply Permutation_nil_l in Hperm. subst xs. simpl in Hlen. lia. }
      simpl. rewrite Hx. by destruct y.1.
    + apply elem_of_cons in Hin as [->|Hin]; [done|].
      destruct xs as [|y [|y' xs']].
      * by apply elem_of_nil in Hin.
      * apply list_elem_of_singleton in Hin as ->.
        simpl in Hs. injection Hs as <-. simpl. by rewrite Hz.
      * assert (Ok s = Raise TypeError) as Hr; [|done].
        apply IH; [simpl; lia|by exists z].
  - by rewrite (sort_decorated_raises _ _ Hs).
Qed.



(** ** An output file that cannot be created *)

Lemma process_plumes_never_empty E flist winds_dir fill key logger w w' :
  process_plumes E flist winds_dir fill key logger w ≠ (Ok [], w').
Proof.
  intros Hrun.
  pose proof (process_plumes_trace _ _ _ _ _ _ _ _ _ Hrun) as _.
  revert Hrun.
  destruct (M_map (read_plume_file E key) flist
              (log_if logger INFO (MsgFlist flist) w).2)
    as [[per_file|e] w1] eqn:Hload.
  - rewrite (process_plumes_run _ _ _ _ _ _ _ _ _ Hload).
    rewrite bind_run. unfold lift at 1.
    destruct (concat per_file) as [|first rest] eqn:Hcat; [done|]. simpl.
    rewrite bind_run. unfold lift at 1.
    destruct (list_first (dict_keys first)) as [k|]; [|done].
    rewrite bind_run. unfold lift at 1.
    destruct (sorted (first :: rest) (dict_getitem k)) as [all|] eqn:Hs;
      [|done].
    apply sorted_Permutation, Permutation_length in Hs.
    unfold enrich_plumes. rewrite bind_run.
    destruct (log_if logger INFO (MsgPlumes all) w1) as [[[]|] w2]; [|done].
    rewrite bind_run.
    destruct (M_map _ all w2) as [[ext|] w3] eqn:Hext; [|done].
    apply M_map_length in Hext.
    rewrite bind_run.
    destruct (log_if logger INFO (MsgComputedPlumes ext) w3) as [[[]|] w4];
      [|done].
    simpl. intros [= -> _]. simpl in *. lia.
  - unfold process_plumes. rewrite bind_run.
    destruct (log_if logger INFO (MsgFlist flist) w) as [r w0] eqn:Hlog.
    assert (r = Ok tt) as -> by (by destruct logger; injection Hlog as <- _).
    simpl in Hload. rewrite bind_run, Hload. done.
Qed.

(** X14. An output file that cannot be created is reported as a missing
    input.  When the plume file was loaded and enriched, the sort of the
    writer succeeds, and the output file does not exist and cannot be
    created (say its directory does not exist), [insert_plumes_in_file]
    raises [OSError] at [open(fname, 'w')] with no file changed; [main]
    catches it, prints that the plume file could not be found, and
    returns normally. *)
Theorem X14_unwritable_output_reported_as_missing_input (E : externals)
    (plume_file winds_dir out_fname : string) (w w1 : world)
    (plumes all : list record) :
  process_plumes E [plume_file] winds_dir (PInt (-9999)) default_minppmm_key
    (Some TheLogger) w = (Ok plumes, w1) →
  sort_step (Some "Candidate ID") plumes = Ok all →
  can_open_for_writing w out_fname = false →
  let ins := insert_plumes_in_file E plumes out_fname (Some "Candidate ID")
               (Some TheLogger) w1 in
  let out := main E (Some plume_file) winds_dir out_fname w in
  ins.1 = Raise OSError ∧ files ins.2 = files w ∧
  out.1 = Ok tt ∧ files out.2 = files w ∧
  stdout out.2 = stdout w ++ ["Could not find file: " +:+ plume_file].
Proof.
  intros Hrun Hsort Hopen.
  pose proof (process_plumes_reads_only E [plume_file] winds_dir
                (PInt (-9999)) default_minppmm_key (Some TheLogger) w)
    as (Hf & Hd & Hs & _).
  rewrite Hrun in Hf, Hd, Hs. simpl in Hf, Hd, Hs.
  assert (plumes ≠ []) as Hne.
  { intros ->. by eapply process_plumes_never_empty. }
  assert (can_open_for_writing w1 out_fname = false) as Hopen1.
  { unfold can_open_for_writing. rewrite Hf, Hd. exact Hopen. }
  assert (files w1 !! out_fname = None) as Hnone.
  { destruct (files w1 !! out_fname) eqn:Hlook; [|done].
    rewrite (can_open_existing w1) in Hopen1; [done|]. by rewrite Hlook. }
  assert (insert_plumes_in_file E plumes out_fname (Some "Candidate ID")
            (Some TheLogger) w1
          = (Raise OSError,
             refused_world out_fname (Some "Candidate ID") (Some TheLogger)
               plumes (backup_world out_fname (Some TheLogger) w1))) as Hins.
  { rewrite insert_plumes_in_file_run by done.
    unfold insert_outcome, existing_records. rewrite Hnone.
    cbn [mbind app]. rewrite Hsort, Hopen1. reflexivity. }
  cbv zeta. rewrite Hins. unfold main, try_except_OSError.
  rewrite bind_run, Hrun. cbv beta iota. rewrite Hins. cbv beta iota.
  unfold refused_world, backup_world. rewrite Hnone. simpl.
  by rewrite Hf, Hs.
Qed.

Lemma X14_unwritable_output_reported_as_missing_input_witness :
  let out := main demo (Some "ime_minppmm1000_a.csv") "winds"
               "results/out.csv" plumes_world in
  dirs plumes_world !! "results" = None ∧
  out.1 = Ok tt ∧
  stdout out.2 = ["Could not find file: ime_minppmm1000_a.csv"].
Proof.
  split; [vm_compute; reflexivity|].
  destruct (X14_unwritable_output_reported_as_missing_input demo
              "ime_minppmm1000_a.csv" "winds" "results/out.csv" plumes_world
              (process_plumes demo ["ime_minppmm1000_a.csv"] "winds"
                 (PInt (-9999)) default_minppmm_key (Some TheLogger)
                 plumes_world).2
              enriched_plumes enriched_plumes)
    as (_ & _ & H1 & _ & H2).
  - vm_compute. reflexivity.
  - vm_compute. reflexivity.
  - vm_compute. reflexivity.
  - split; [exact H1|]. rewrite H2. vm_compute. reflexivity.
Defined.

